(** * A shallow embedding of nxlog4go's file appender (filelog.FileAppender)

    The appender of [src/unnamed/part_000] (package filelog) and the
    helpers of [src/unnamed/part_001] (package nxlog4go), embedded in
    Rocq: Go [int]s are [Z] with their 64-bit wrap-around written out,
    Go strings are [string]s processed byte by byte, the appender is a
    record, and the [select] of [writeLoop] is a dispatch over an explicit
    event. *)

From Stdlib Require Import ZArith List String Ascii Bool Lia.
From Stdlib Require Import Init.Byte.
Import ListNotations.
Open Scope Z_scope.

(** ** Go machine integers *)

Definition two63 : Z := 9223372036854775808.
Definition two64 : Z := 18446744073709551616.
Definition maxInt64 : Z := two63 - 1.
Definition minInt64 : Z := - two63.
Definition maxUint64 : Z := two64 - 1.

(** Two's complement wrap-around of a 64-bit [int] / [int64]. *)
Definition wrap64 (z : Z) : Z :=
  let r := z mod two64 in
  if r >=? two63 then r - two64 else r.

Definition in_int64 (z : Z) : Prop := minInt64 <= z <= maxInt64.

(** ** Go strings, byte by byte *)

Definition byte_of (c : ascii) : Z := Z.of_nat (nat_of_ascii c).

Definition is_digit (c : ascii) : bool :=
  (48 <=? byte_of c) && (byte_of c <=? 57).

Definition digit_val (c : ascii) : Z := byte_of c - 48.

(** [strings.Trim(s, cutset)]: drop leading and trailing bytes of [cutset]. *)
Fixpoint in_cutset (c : ascii) (cutset : list ascii) : bool :=
  match cutset with
  | [] => false
  | d :: r => if Ascii.eqb c d then true else in_cutset c r
  end.

Fixpoint trim_left (cutset : list ascii) (l : list ascii) : list ascii :=
  match l with
  | [] => []
  | c :: r => if in_cutset c cutset then trim_left cutset r else l
  end.

Definition Trim (s : string) (cutset : string) : string :=
  let cs := list_ascii_of_string cutset in
  string_of_list_ascii
    (rev (trim_left cs (rev (trim_left cs (list_ascii_of_string s))))).

(** The cutset " \r\n" used throughout [SetOption]. *)
Definition ws_cutset : string :=
  String " " (String (ascii_of_nat 13) (String (ascii_of_nat 10) EmptyString)).

(** ** strconv.Atoi (64-bit [int], base 10) *)

Inductive num_error := NumSyntax | NumRange.

(** [strconv.ParseUint(s, 10, 64)]'s digit loop: a non-digit is a syntax
    error (value 0); overflow returns [maxUint64] with a range error at once. *)
Definition uint_cutoff : Z := maxUint64 / 10 + 1.

Fixpoint parse_uint10_loop (n : Z) (l : list ascii) : Z * option num_error :=
  match l with
  | [] => (n, None)
  | c :: r =>
      if negb (is_digit c) then (0, Some NumSyntax)
      else if n >=? uint_cutoff then (maxUint64, Some NumRange)
      else
        let n1 := n * 10 + digit_val c in
        if n1 >? maxUint64 then (maxUint64, Some NumRange)
        else parse_uint10_loop n1 r
  end.

Definition ParseUint10 (l : list ascii) : Z * option num_error :=
  match l with
  | [] => (0, Some NumSyntax)
  | _ => parse_uint10_loop 0 l
  end.

(** [strconv.ParseInt(s, 10, 64)]; [strconv.Atoi]'s fast path for short
    strings computes the same result. *)
Definition ParseInt10 (l : list ascii) : Z * option num_error :=
  match l with
  | [] => (0, Some NumSyntax)
  | _ =>
      let '(neg, body) :=
        match l with
        | c :: r =>
            if Ascii.eqb c "+"%char then (false, r)
            else if Ascii.eqb c "-"%char then (true, r)
            else (false, l)
        | [] => (false, l)
        end in
      match ParseUint10 body with
      | (_, Some NumSyntax) => (0, Some NumSyntax)
      | (un, err) =>
          if negb neg && (un >=? two63) then (maxInt64, Some NumRange)
          else if neg && (un >? two63) then (minInt64, Some NumRange)
          else ((if neg then - un else un), err)
      end
  end.

Definition Atoi (s : string) : Z * option num_error :=
  ParseInt10 (list_ascii_of_string s).

(** [StrToNumSuffix] of part_001: the K/M/G suffix multiplies by [mult]
    once, twice or three times (the [fallthrough] chain); the parse error
    of [Atoi] is discarded; [parsed * num] wraps. *)
Definition suffix_power (c : ascii) : nat :=
  if Ascii.eqb c "G"%char || Ascii.eqb c "g"%char then 3%nat
  else if Ascii.eqb c "M"%char || Ascii.eqb c "m"%char then 2%nat
  else if Ascii.eqb c "K"%char || Ascii.eqb c "k"%char then 1%nat
  else 0%nat.

Fixpoint mul_n_times (k : nat) (mult num : Z) : Z :=
  match k with
  | O => num
  | S k' => mul_n_times k' mult (wrap64 (num * mult))
  end.

Definition StrToNumSuffix (str : string) (mult : Z) : Z :=
  let l := list_ascii_of_string str in
  let '(num, body) :=
    if (1 <? List.length l)%nat then
      match rev l with
      | c :: rinit =>
          match suffix_power c with
          | O => (1, l)
          | k => (mul_n_times k mult 1, rev rinit)
          end
      | [] => (1, l)
      end
    else (1, l) in
  let '(parsed, _) := ParseInt10 body in
  wrap64 (parsed * num).

(** ** time.ParseDuration *)

(** Go's [time.ParseDuration], byte by byte: an optional sign, then one or
    more components (digits, an optional fraction, a unit), with "0"
    accepted bare.  The fractional part is computed exactly
    ([f * unit / scale], floored) where Go uses float64; the results below do
    not depend on fractions. *)
Definition ns_per_s : Z := 1000000000.

Definition unit_of (u : list ascii) : option Z :=
  let s := string_of_list_ascii u in
  if String.eqb s "ns" then Some 1
  else if String.eqb s "us" then Some 1000
  else if String.eqb s (String (ascii_of_nat 194) (String (ascii_of_nat 181) "s"))
  then Some 1000
  else if String.eqb s (String (ascii_of_nat 206) (String (ascii_of_nat 188) "s"))
  then Some 1000
  else if String.eqb s "ms" then Some 1000000
  else if String.eqb s "s" then Some ns_per_s
  else if String.eqb s "m" then Some (60 * ns_per_s)
  else if String.eqb s "h" then Some (3600 * ns_per_s)
  else None.

(** [leadingInt]: digits with overflow detection; [None] is its error. *)
Fixpoint leadingInt (x : Z) (l : list ascii) : option (Z * list ascii) :=
  match l with
  | c :: r =>
      if is_digit c then
        if x >? two63 / 10 then None
        else
          let x1 := x * 10 + digit_val c in
          if x1 >? two63 then None else leadingInt x1 r
      else Some (x, l)
  | [] => Some (x, l)
  end.

(** [leadingFraction]: digits after the point, value and scale, ignoring
    digits once the value would overflow. *)
Fixpoint leadingFraction (x scale : Z) (overflow : bool) (l : list ascii)
  : Z * Z * list ascii :=
  match l with
  | c :: r =>
      if is_digit c then
        if overflow then leadingFraction x scale true r
        else if x >? maxInt64 / 10 then leadingFraction x scale true r
        else
          let y := x * 10 + digit_val c in
          if y >? two63 then leadingFraction x scale true r
          else leadingFraction y (scale * 10) false r
      else (x, scale, l)
  | [] => (x, scale, l)
  end.

Definition is_digit_or_dot (c : ascii) : bool :=
  is_digit c || Ascii.eqb c "."%char.

(** Split the unit: bytes up to the next digit or '.'. *)
Fixpoint split_unit (l : list ascii) : list ascii * list ascii :=
  match l with
  | c :: r =>
      if is_digit_or_dot c then ([], l)
      else let '(u, rest) := split_unit r in (c :: u, rest)
  | [] => ([], [])
  end.

(** One component (integer digits, optional fraction, unit) added to the running total [d];
    [fuel] bounds the number of components (each consumes at least a byte). *)
Fixpoint duration_loop (fuel : nat) (d : Z) (l : list ascii) : option Z :=
  match l with
  | [] => Some d
  | c0 :: _ =>
    match fuel with
    | O => None
    | S fuel' =>
      if negb (is_digit_or_dot c0) then None else
      match leadingInt 0 l with
      | None => None
      | Some (v, l1) =>
        let pre := negb (Nat.eqb (List.length l) (List.length l1)) in
        let '(f, scale, l2, post) :=
          match l1 with
          | c :: r =>
              if Ascii.eqb c "."%char then
                let '(f, scale, l2) := leadingFraction 0 1 false r in
                (f, scale, l2, negb (Nat.eqb (List.length r) (List.length l2)))
              else (0, 1, l1, false)
          | [] => (0, 1, l1, false)
          end in
        if negb (pre || post) then None else
        let '(u, l3) := split_unit l2 in
        match u with
        | [] => None
        | _ =>
          match unit_of u with
          | None => None
          | Some unit =>
            if v >? two63 / unit then None else
            let v1 := v * unit in
            let v2 := if f >? 0 then v1 + (f * unit) / scale else v1 in
            if v2 >? two63 then None else
            let d1 := d + v2 in
            if d1 >? two63 then None else duration_loop fuel' d1 l3
          end
        end
      end
    end
  end.

(** [time.ParseDuration]: the duration in nanoseconds, or [None] for an
    error (in which case Go returns 0 together with the error). *)
Definition ParseDuration (s : string) : option Z :=
  let l := list_ascii_of_string s in
  let '(neg, body) :=
    match l with
    | c :: r =>
        if Ascii.eqb c "-"%char then (true, r)
        else if Ascii.eqb c "+"%char then (false, r)
        else (false, l)
    | [] => (false, l)
    end in
  if String.eqb (string_of_list_ascii body) "0" then Some 0 else
  match body with
  | [] => None
  | _ =>
    match duration_loop (List.length body) 0 body with
    | None => None
    | Some d =>
        if neg then Some (- d)
        else if d >? maxInt64 then None else Some d
    end
  end.

(** [dur, _ := time.ParseDuration(value)]: the error is dropped and the
    zero duration is kept. *)
Definition parse_duration_or_zero (s : string) : Z :=
  match ParseDuration s with Some d => d | None => 0 end.

(** [int(dur/time.Second)]: Go's integer division truncates toward zero. *)
Definition seconds_of_duration (dur : Z) : Z := Z.quot dur ns_per_s.

(** ** Time *)

(** A [time.Time] is modelled as nanoseconds since the Unix epoch; the
    active [time.Location] as a fixed offset east of UTC, in seconds.
    [time.Duration] is an int64 of nanoseconds. *)
Definition seconds_per_day : Z := 86400.

(** [time.Duration(n) * time.Second]: an int64 product, wrapping. *)
Definition dur_seconds (n : Z) : Z := wrap64 (wrap64 n * ns_per_s).

(** [time.Date(t.Year(), t.Month(), t.Day(), 0, 0, 0, 0, t.Location())]:
    the start of [t]'s calendar day in the zone. *)
Definition date_midnight (zone t : Z) : Z :=
  let local := t / ns_per_s + zone in
  (local - local mod seconds_per_day - zone) * ns_per_s.

(** [nextTime] of part_000, with [time.Now()] passed in as [now]. *)
Definition nextTime (now zone : Z) (cycle clock : Z) : Z :=
  let cycle := if cycle <=? 0 then 86400 else cycle in
  let nrt := now in
  if clock <? 0 then nrt + dur_seconds cycle
  else
    let nextCycle := nrt + dur_seconds cycle in
    let nrt := date_midnight zone nextCycle in
    nrt + dur_seconds clock.

(** ** The rotating file sink *)

(** Calls the appender makes on its sink, in order. *)
Inductive sink_call :=
| CWrite (bb : list byte)
| CFlush
| CRotate
| CClose.

(** Modelled from the spec: [l4g.RotateFileWriter], the external sink whose
    code is not under src/.  It holds the current file's content, the
    archived generations (newest first, at most [maxbackup]), the size
    threshold ([<= 0] is unlimited) and a log of the calls it receives.
    "Size resets to (head length) on each rotate"; in size mode it "rotates
    synchronously whenever a write would exceed" the threshold. *)
Record RotateFileWriter := mkRotateFileWriter {
  rf_filename : string;
  rf_head : string;
  rf_foot : string;
  rf_maxsize : Z;
  rf_maxbackup : Z;
  rf_flush : Z;
  rf_cur : list byte;
  rf_backups : list (list byte);
  rf_calls : list sink_call
}.

Definition NewRotateFileWriter (filename : string) : RotateFileWriter :=
  mkRotateFileWriter filename "" "" 0 0 0 [] [] [].

Definition rf_update (w : RotateFileWriter) (maxsize maxbackup flush : Z)
  (cur : list byte) (backups : list (list byte)) (calls : list sink_call)
  : RotateFileWriter :=
  mkRotateFileWriter (rf_filename w) (rf_head w) (rf_foot w)
    maxsize maxbackup flush cur backups calls.

Definition Size (w : RotateFileWriter) : Z := Z.of_nat (List.length (rf_cur w)).

(** Archive the current file and start a fresh one holding the head. *)
Definition rotate_file (w : RotateFileWriter) : RotateFileWriter :=
  rf_update w (rf_maxsize w) (rf_maxbackup w) (rf_flush w)
    (list_byte_of_string (rf_head w))
    (firstn (Z.to_nat (rf_maxbackup w)) (rf_cur w :: rf_backups w))
    (rf_calls w).

Definition log_call (c : sink_call) (w : RotateFileWriter) : RotateFileWriter :=
  rf_update w (rf_maxsize w) (rf_maxbackup w) (rf_flush w)
    (rf_cur w) (rf_backups w) (rf_calls w ++ [c]).

Definition Rotate (w : RotateFileWriter) : RotateFileWriter :=
  rotate_file (log_call CRotate w).

Definition Write (bb : list byte) (w : RotateFileWriter) : RotateFileWriter :=
  let w1 := log_call (CWrite bb) w in
  let w2 :=
    if (0 <? rf_maxsize w1) && (rf_maxsize w1 <? Size w1 + Z.of_nat (List.length bb))
    then rotate_file w1 else w1 in
  rf_update w2 (rf_maxsize w2) (rf_maxbackup w2) (rf_flush w2)
    (rf_cur w2 ++ bb) (rf_backups w2) (rf_calls w2).

Definition Flush (w : RotateFileWriter) : RotateFileWriter := log_call CFlush w.

Definition Close (w : RotateFileWriter) : RotateFileWriter :=
  let w1 := log_call CClose w in
  rf_update w1 (rf_maxsize w1) (rf_maxbackup w1) (rf_flush w1)
    (rf_cur w1 ++ list_byte_of_string (rf_foot w1)) (rf_backups w1) (rf_calls w1).

Definition SetMaxSize (n : Z) (w : RotateFileWriter) : RotateFileWriter :=
  rf_update w n (rf_maxbackup w) (rf_flush w) (rf_cur w) (rf_backups w) (rf_calls w).

Definition SetMaxBackup (n : Z) (w : RotateFileWriter) : RotateFileWriter :=
  rf_update w (rf_maxsize w) n (rf_flush w) (rf_cur w) (rf_backups w) (rf_calls w).

Definition SetFlush (n : Z) (w : RotateFileWriter) : RotateFileWriter :=
  rf_update w (rf_maxsize w) (rf_maxbackup w) n (rf_cur w) (rf_backups w) (rf_calls w).

Definition SetFileName (s : string) (w : RotateFileWriter) : RotateFileWriter :=
  mkRotateFileWriter s (rf_head w) (rf_foot w) (rf_maxsize w) (rf_maxbackup w)
    (rf_flush w) (rf_cur w) (rf_backups w) (rf_calls w).

Definition SetHead (s : string) (w : RotateFileWriter) : RotateFileWriter :=
  mkRotateFileWriter (rf_filename w) s (rf_foot w) (rf_maxsize w) (rf_maxbackup w)
    (rf_flush w) (rf_cur w) (rf_backups w) (rf_calls w).

Definition SetFoot (s : string) (w : RotateFileWriter) : RotateFileWriter :=
  mkRotateFileWriter (rf_filename w) (rf_head w) s (rf_maxsize w) (rf_maxbackup w)
    (rf_flush w) (rf_cur w) (rf_backups w) (rf_calls w).

(** The payloads of the [Write] calls a sink has received, in order. *)
Definition writes_of (w : RotateFileWriter) : list (list byte) :=
  flat_map (fun c => match c with CWrite bb => [bb] | _ => [] end) (rf_calls w).

(** ** Option values and errors *)

(** The dynamic type of the [interface{}] argument of [SetOption]. *)
Inductive value :=
| VInt (n : Z)
| VStr (s : string)
| VBool (b : bool)
| VOther.

Inductive error := ErrBadOption | ErrBadValue | ErrIO.

(** Modelled from the spec: the formatting layer ([l4g.Layout]), to which
    "pattern", "format" and "utc" are delegated; it records the option. *)
Definition Layout := list (string * value).

Definition layout_SetOption (name : string) (v : value) (ly : Layout)
  : Layout * option error := (ly ++ [(name, v)], None).

(** ** The appender *)

(** Modelled from the spec: [l4g.LogBufferLength], "a fixed default"
    capacity of the message channel. *)
Definition LogBufferLength : nat := 32.

(** [FileAppender]; the buffered channels [messages] and [loopReset] are
    their buffered contents (oldest first) and a closed flag. *)
Record FileAppender := mkFileAppender {
  layout : Layout;
  messages : list (list byte);
  messages_cap : nat;
  messages_closed : bool;
  out : RotateFileWriter;
  maxsize : Z;
  cycle : Z;
  clock : Z;
  loopRunning : bool;
  loopReset : list Z;
  loopReset_closed : bool
}.

Definition NewAppender (filename : string) (maxbackup : Z) : FileAppender :=
  mkFileAppender [] [] LogBufferLength false
    (SetMaxBackup maxbackup (NewRotateFileWriter filename))
    0 86400 (-1) false [] false.

Definition set_layout (ly : Layout) (fa : FileAppender) : FileAppender :=
  mkFileAppender ly (messages fa) (messages_cap fa) (messages_closed fa) (out fa)
    (maxsize fa) (cycle fa) (clock fa) (loopRunning fa) (loopReset fa) (loopReset_closed fa).

Definition set_messages (m : list (list byte)) (fa : FileAppender) : FileAppender :=
  mkFileAppender (layout fa) m (messages_cap fa) (messages_closed fa) (out fa)
    (maxsize fa) (cycle fa) (clock fa) (loopRunning fa) (loopReset fa) (loopReset_closed fa).

Definition close_messages (fa : FileAppender) : FileAppender :=
  mkFileAppender (layout fa) (messages fa) (messages_cap fa) true (out fa)
    (maxsize fa) (cycle fa) (clock fa) (loopRunning fa) (loopReset fa) (loopReset_closed fa).

Definition set_out (o : RotateFileWriter) (fa : FileAppender) : FileAppender :=
  mkFileAppender (layout fa) (messages fa) (messages_cap fa) (messages_closed fa) o
    (maxsize fa) (cycle fa) (clock fa) (loopRunning fa) (loopReset fa) (loopReset_closed fa).

Definition set_maxsize (n : Z) (fa : FileAppender) : FileAppender :=
  mkFileAppender (layout fa) (messages fa) (messages_cap fa) (messages_closed fa) (out fa)
    n (cycle fa) (clock fa) (loopRunning fa) (loopReset fa) (loopReset_closed fa).

Definition set_cycle (n : Z) (fa : FileAppender) : FileAppender :=
  mkFileAppender (layout fa) (messages fa) (messages_cap fa) (messages_closed fa) (out fa)
    (maxsize fa) n (clock fa) (loopRunning fa) (loopReset fa) (loopReset_closed fa).

Definition set_clock (n : Z) (fa : FileAppender) : FileAppender :=
  mkFileAppender (layout fa) (messages fa) (messages_cap fa) (messages_closed fa) (out fa)
    (maxsize fa) (cycle fa) n (loopRunning fa) (loopReset fa) (loopReset_closed fa).

Definition set_loopRunning (b : bool) (fa : FileAppender) : FileAppender :=
  mkFileAppender (layout fa) (messages fa) (messages_cap fa) (messages_closed fa) (out fa)
    (maxsize fa) (cycle fa) (clock fa) b (loopReset fa) (loopReset_closed fa).

Definition set_loopReset (r : list Z) (fa : FileAppender) : FileAppender :=
  mkFileAppender (layout fa) (messages fa) (messages_cap fa) (messages_closed fa) (out fa)
    (maxsize fa) (cycle fa) (clock fa) (loopRunning fa) r (loopReset_closed fa).

Definition close_loopReset (fa : FileAppender) : FileAppender :=
  mkFileAppender (layout fa) (messages fa) (messages_cap fa) (messages_closed fa) (out fa)
    (maxsize fa) (cycle fa) (clock fa) (loopRunning fa) (loopReset fa) true.

(** ** SetOption *)

(** [fa.loopReset <- time.Now()] when the loop runs.  A send on the full
    buffered channel blocks until the loop takes a token; the model records
    the token once it is sent. *)
Definition post_reset (now : Z) (fa : FileAppender) : FileAppender :=
  if loopRunning fa then set_loopReset (loopReset fa ++ [now]) fa else fa.

(** The [switch value := v.(type)] of "flush", "maxbackup" and "maxsize". *)
Definition int_or_suffix (v : value) (mult : Z) : option Z :=
  match v with
  | VInt value => Some value
  | VStr value => Some (StrToNumSuffix (Trim value ws_cutset) mult)
  | _ => None
  end.

(** The [switch value := v.(type)] of "cycle" and "clock": the error of
    [time.ParseDuration] is discarded. *)
Definition int_or_duration (v : value) : option Z :=
  match v with
  | VInt value => Some value
  | VStr value => Some (seconds_of_duration (parse_duration_or_zero value))
  | _ => None
  end.

(** The [switch value := v.(type)] of "daily". *)
Definition daily_of (v : value) : option bool :=
  match v with
  | VStr value => Some (negb (String.eqb (Trim value ws_cutset) "false"))
  | VBool value => Some value
  | _ => None
  end.

(** [SetOption(name, v)], under [fa.mu].  [now] is [time.Now()];
    [mkdir_ok] says whether [os.MkdirAll] of the file's directory succeeds.
    Returns the new appender and the error (or [None] for nil). *)
Definition SetOption (now : Z) (mkdir_ok : bool) (name : string) (v : value)
  (fa : FileAppender) : FileAppender * option error :=
  if String.eqb name "filename" then
    match v with
    | VStr filename =>
        if (String.length filename <=? 0)%nat then (fa, Some ErrBadValue)
        else if negb mkdir_ok then (fa, Some ErrIO)
        else (set_out (SetFileName filename (out fa)) fa, None)
    | _ => (fa, Some ErrBadValue)
    end
  else if String.eqb name "flush" then
    match int_or_suffix v 1024 with
    | Some flush => (set_out (SetFlush flush (out fa)) fa, None)
    | None => (fa, Some ErrBadValue)
    end
  else if String.eqb name "maxbackup" then
    match int_or_suffix v 1 with
    | Some maxbackup => (set_out (SetMaxBackup maxbackup (out fa)) fa, None)
    | None => (fa, Some ErrBadValue)
    end
  else if String.eqb name "maxsize" then
    match int_or_suffix v 1024 with
    | Some ms =>
        let fa1 := set_maxsize ms fa in
        if cycle fa1 <=? 0 then (set_out (SetMaxSize (maxsize fa1) (out fa1)) fa1, None)
        else (fa1, None)
    | None => (fa, Some ErrBadValue)
    end
  else if String.eqb name "pattern" || String.eqb name "format"
          || String.eqb name "utc" then
    let '(ly, err) := layout_SetOption name v (layout fa) in
    (set_layout ly fa, err)
  else if String.eqb name "head" then
    match v with
    | VStr header => (set_out (SetHead header (out fa)) fa, None)
    | _ => (fa, Some ErrBadValue)
    end
  else if String.eqb name "foot" then
    match v with
    | VStr footer => (set_out (SetFoot footer (out fa)) fa, None)
    | _ => (fa, Some ErrBadValue)
    end
  else if String.eqb name "cycle" then
    match int_or_duration v with
    | Some c =>
        let fa1 := set_cycle c fa in
        let fa2 :=
          if cycle fa1 <=? 0 then set_out (SetMaxSize (maxsize fa1) (out fa1)) fa1
          else set_out (SetMaxSize 0 (out fa1)) fa1 in
        (post_reset now fa2, None)
    | None => (fa, Some ErrBadValue)
    end
  else if String.eqb name "clock" || String.eqb name "delay0" then
    match int_or_duration v with
    | Some c => (post_reset now (set_clock c fa), None)
    | None => (fa, Some ErrBadValue)
    end
  else if String.eqb name "daily" then
    match daily_of v with
    | Some daily =>
        if daily then
          let fa1 := set_maxsize 0 (set_clock 0 (set_cycle 86400 fa)) in
          (post_reset now (set_out (SetMaxSize 0 (out fa1)) fa1), None)
        else (fa, None)
    | None => (fa, Some ErrBadValue)
    end
  else (fa, Some ErrBadOption).

(** The option names [SetOption] recognises. *)
Definition option_names : list string :=
  ["filename"; "flush"; "maxbackup"; "maxsize"; "pattern"; "format"; "utc";
   "head"; "foot"; "cycle"; "clock"; "delay0"; "daily"]%string.

(** ** writeLoop and Init *)

(** [if fa.cycle > 0 && fa.out.Size() > fa.maxsize { fa.out.Rotate() }] *)
Definition rotate_check (fa : FileAppender) : FileAppender :=
  if (0 <? cycle fa) && (maxsize fa <? Size (out fa))
  then set_out (Rotate (out fa)) fa else fa.

(** The events of [writeLoop]'s [select]. *)
Inductive loop_event :=
| EvMessage   (* case bb, ok := <-fa.messages *)
| EvTimer     (* case <-rotTimer.C *)
| EvReset.    (* case <-fa.loopReset *)

(** The prologue of [writeLoop], run before [close(ready)]: the rotation
    check and the first deadline [nrt]; the timer fires at [nrt]. *)
Definition writeLoop_start (now zone : Z) (fa : FileAppender) : FileAppender * Z :=
  let fa1 := rotate_check fa in
  (fa1, nextTime now zone (cycle fa1) (clock fa1)).

(** One iteration of the [for { select { ... } }] of [writeLoop] on the
    event [e], with the timer armed for [nrt].  [None]: that case of the
    [select] is not ready.  [Some (fa', Some nrt')]: the loop goes on with
    the timer armed for [nrt'].  [Some (fa', None)]: the loop has returned
    (and its deferred [fa.loopRunning = false] has run). *)
Definition writeLoop_step (now zone : Z) (e : loop_event) (nrt : Z)
  (fa : FileAppender) : option (FileAppender * option Z) :=
  match e with
  | EvMessage =>
      let recv :=
        match messages fa with
        | bb :: rest => Some (bb, true, rest)
        | [] => if messages_closed fa then Some ([], false, []) else None
        end in
      match recv with
      | None => None
      | Some (bb, ok, rest) =>
          let fa1 := set_messages rest fa in
          let o1 := Write bb (out fa1) in
          let o2 := if (Z.of_nat (List.length (messages fa1)) <=? 0) then Flush o1 else o1 in
          let fa2 := set_out o2 fa1 in
          if ok then Some (fa2, Some nrt)
          else
            (* for bb := range fa.messages { fa.out.Write(bb) } *)
            let o3 := fold_left (fun o b => Write b o) (messages fa2) (out fa2) in
            Some (set_loopRunning false (set_messages [] (set_out o3 fa2)), None)
      end
  | EvTimer =>
      if now <? nrt then None
      else
        let nrt' := nextTime now zone (cycle fa) (clock fa) in
        Some (rotate_check fa, Some nrt')
  | EvReset =>
      let recv :=
        match loopReset fa with
        | _ :: rest => Some rest
        | [] => if loopReset_closed fa then Some [] else None
        end in
      match recv with
      | None => None
      | Some rest =>
          let fa1 := set_loopReset rest fa in
          Some (fa1, Some (nextTime now zone (cycle fa1) (clock fa1)))
      end
  end.

(** The write loop's goroutine, as seen from outside. *)
Inductive LoopState :=
| LoopNotStarted
| LoopRunning (nrt : Z)
| LoopReturned.

(** The appender together with the clock, the zone, the file system's
    answer to [os.MkdirAll], the number of [writeLoop] goroutines spawned
    and the state of the current one. *)
Record World := mkWorld {
  w_fa : FileAppender;
  w_now : Z;
  w_zone : Z;
  w_mkdir_ok : bool;
  w_tasks : nat;
  w_loop : LoopState
}.

Definition set_fa (fa : FileAppender) (w : World) : World :=
  mkWorld fa (w_now w) (w_zone w) (w_mkdir_ok w) (w_tasks w) (w_loop w).

(** [Init]: return at once when the loop runs; otherwise set [loopRunning],
    spawn [writeLoop] and wait for [ready], i.e. for its prologue. *)
Definition Init (w : World) : World :=
  if loopRunning (w_fa w) then w
  else
    let fa1 := set_loopRunning true (w_fa w) in
    let '(fa2, nrt) := writeLoop_start (w_now w) (w_zone w) fa1 in
    mkWorld fa2 (w_now w) (w_zone w) (w_mkdir_ok w) (S (w_tasks w)) (LoopRunning nrt).

(** The actions of the producers, of [Close], of the loop and of time. *)
Inductive action :=
| AWrite (bb : list byte)          (* Write: fa.messages <- bb *)
| ACloseQueue                      (* Close: close(fa.messages) *)
| ACloseRelease                    (* Close, after its poll: fa.out.Close(); close(fa.loopReset) *)
| ALoop (e : loop_event)           (* one iteration of writeLoop's select *)
| ATick (dt : Z)                   (* time passes *)
| ASetOption (name : string) (v : value)
| AInit.

(** One action; [None] when it blocks or panics.  [Close]'s poll of
    [len(fa.messages)] (at most ten sleeps of 100ms) is real time: the model
    lets [ACloseRelease] happen at any point after [ACloseQueue]. *)
Definition world_step (a : action) (w : World) : option World :=
  let fa := w_fa w in
  match a with
  | AWrite bb =>
      if messages_closed fa then None
      else if (messages_cap fa <=? List.length (messages fa))%nat then None
      else Some (set_fa (set_messages (messages fa ++ [bb]) fa) w)
  | ACloseQueue =>
      if messages_closed fa then None else Some (set_fa (close_messages fa) w)
  | ACloseRelease =>
      if negb (messages_closed fa) || loopReset_closed fa then None
      else Some (set_fa (close_loopReset (set_out (Close (out fa)) fa)) w)
  | ALoop e =>
      match w_loop w with
      | LoopRunning nrt =>
          match writeLoop_step (w_now w) (w_zone w) e nrt fa with
          | None => None
          | Some (fa', Some nrt') =>
              Some (mkWorld fa' (w_now w) (w_zone w) (w_mkdir_ok w) (w_tasks w)
                      (LoopRunning nrt'))
          | Some (fa', None) =>
              Some (mkWorld fa' (w_now w) (w_zone w) (w_mkdir_ok w) (w_tasks w)
                      LoopReturned)
          end
      | _ => None
      end
  | ATick dt =>
      if dt <? 0 then None
      else Some (mkWorld fa (w_now w + dt) (w_zone w) (w_mkdir_ok w) (w_tasks w) (w_loop w))
  | ASetOption name v =>
      Some (set_fa (fst (SetOption (w_now w) (w_mkdir_ok w) name v fa)) w)
  | AInit => Some (Init w)
  end.

Fixpoint run (acts : list action) (w : World) : option World :=
  match acts with
  | [] => Some w
  | a :: rest =>
      match world_step a w with
      | None => None
      | Some w' => run rest w'
      end
  end.

(** The messages the producers enqueue along a schedule. *)
Definition enqueued (acts : list action) : list (list byte) :=
  flat_map (fun a => match a with AWrite bb => [bb] | _ => [] end) acts.

(** A fresh appender, as [NewAppender] returns it, at time [now]. *)
Definition fresh_world (filename : string) (maxbackup now zone : Z) : World :=
  mkWorld (NewAppender filename maxbackup) now zone true 0 LoopNotStarted.

Definition bytes (s : string) : list byte := list_byte_of_string s.

(** ** Conversion helpers of cast.go *)

(** Errors of the cast helpers: [ErrBadValue], or the error of
    [strconv.Atoi] / [time.ParseDuration] passed through. *)
Inductive cast_error :=
| CastBadValue
| CastNumError (e : num_error)
| CastDurationError
| CastBoolError.

(** [strToNumSuffix] of cast.go: the body of [StrToNumSuffix], returning
    the error of [strconv.Atoi] instead of dropping it. *)
Definition strToNumSuffix (str : string) (mult : Z) : Z * option num_error :=
  let l := list_ascii_of_string str in
  let '(num, body) :=
    if (1 <? List.length l)%nat then
      match rev l with
      | c :: rinit =>
          match suffix_power c with
          | O => (1, l)
          | k => (mul_n_times k mult 1, rev rinit)
          end
      | [] => (1, l)
      end
    else (1, l) in
  let '(parsed, err) := ParseInt10 body in
  (wrap64 (parsed * num), err).

(** [ToInt] of cast.go. *)
Definition ToInt (i : value) : Z * option cast_error :=
  match i with
  | VInt n => (n, None)
  | VStr s =>
      let '(n, err) := strToNumSuffix s 1024 in (n, option_map CastNumError err)
  | _ => (0, Some CastBadValue)
  end.

(** [ToSeconds] of cast.go: on a parse error Go's duration is 0. *)
Definition ToSeconds (i : value) : Z * option cast_error :=
  match i with
  | VInt n => (n, None)
  | VStr s =>
      match ParseDuration s with
      | Some d => (seconds_of_duration d, None)
      | None => (seconds_of_duration 0, Some CastDurationError)
      end
  | _ => (0, Some CastBadValue)
  end.

(** ** Configuring an appender from properties *)

(** An [AppenderProp] / [NameValue]: a property name and its text. *)
Definition NameValue := (string * string)%type.

(** [AppenderConfigure] of part_001, with the file appender as [app]:
    every property is set with its trimmed text; [ok] turns false on an
    [ErrBadValue] only (other errors are logged and ignored). *)
Fixpoint AppenderConfigure_loop (now : Z) (mkdir_ok : bool) (props : list NameValue)
  (fa : FileAppender) (ok : bool) : FileAppender * bool :=
  match props with
  | [] => (fa, ok)
  | (name, val) :: rest =>
      let '(fa1, err) := SetOption now mkdir_ok name (VStr (Trim val ws_cutset)) fa in
      let ok1 := match err with Some ErrBadValue => false | _ => ok end in
      AppenderConfigure_loop now mkdir_ok rest fa1 ok1
  end.

Definition AppenderConfigure (now : Z) (mkdir_ok : bool) (fa : FileAppender)
  (props : list NameValue) : FileAppender * bool :=
  AppenderConfigure_loop now mkdir_ok props fa true.

(** [loadAppender] of config.go, with the file appender as the created
    appender.  [level] and [silent] are the filter's level and [SILENT];
    [newFunc] is what [GetAppenderNewFunc(typ)] yields: [None] for a nil
    constructor, [Some None] for a constructor returning nil, [Some (Some
    fa)] for one returning [fa].  Errors of [SetOption] are only logged. *)
Definition loadAppender (now : Z) (mkdir_ok : bool) (level silent : Z)
  (newFunc : option (option FileAppender)) (props : list NameValue)
  : option FileAppender :=
  if silent <=? level then None
  else
    match newFunc with
    | None => None
    | Some None => None
    | Some (Some appender) =>
        Some (fold_left
                (fun fa (prop : NameValue) =>
                   fst (SetOption now mkdir_ok (fst prop)
                          (VStr (Trim (snd prop) ws_cutset)) fa))
                props appender)
    end.

(** [strconv.ParseBool]: the accepted spellings of true and false;
    anything else is a syntax error with [false]. *)
Definition ParseBool (str : string) : bool * option cast_error :=
  if String.eqb str "1" || String.eqb str "t" || String.eqb str "T"
     || String.eqb str "TRUE" || String.eqb str "true" || String.eqb str "True"
  then (true, None)
  else if String.eqb str "0" || String.eqb str "f" || String.eqb str "F"
     || String.eqb str "FALSE" || String.eqb str "false" || String.eqb str "False"
  then (false, None)
  else (false, Some CastBoolError).

(** [ToBool] of cast.go. *)
Definition ToBool (i : value) : bool * option cast_error :=
  match i with
  | VBool b => (b, None)
  | VInt n => (0 <? n, None)
  | VStr s => ParseBool s
  | _ => (false, Some CastBadValue)
  end.

(** [FilterConfig] of config.go. *)
Record FilterConfig := mkFilterConfig {
  fc_Enabled : string;
  fc_Tag : string;
  fc_Type : string;
  fc_Level : string;
  fc_Pattern : string;
  fc_Properties : list NameValue
}.

(** What [LoadConfiguration] asks of the rest of the library, in order:
    [loadLogLog], [loadStdout] and [filters.Add]. *)
Inductive config_call :=
| CLoadLogLog (level : Z) (pattern : string)
| CLoadStdout (level : Z) (pattern : string)
| CFiltersAdd (tag : string) (level : Z) (app : FileAppender).

Section LoadConfiguration.
(** [GetLevel], [strings.ToLower], [SILENT] and [GetAppenderNewFunc]
    (with the call of the constructor it returns) are outside src/. *)
Variable GetLevel : string -> Z.
Variable ToLower : string -> string.
Variable SILENT : Z.
Variable GetAppenderNewFunc : string -> option (option FileAppender).
Variable now : Z.
Variable mkdir_ok : bool.

(** One iteration of the loop over [lc.Filters]. *)
Definition load_filter (fc : FilterConfig) : list config_call :=
  if String.eqb (fc_Tag fc) "" && String.eqb (fc_Type fc) "" then []
  else
    let '(tag, typ) :=
      if String.eqb (fc_Tag fc) "" then (fc_Type fc, fc_Type fc)
      else if String.eqb (fc_Type fc) "" then (fc_Tag fc, ToLower (fc_Tag fc))
      else (fc_Tag fc, fc_Type fc) in
    match ToBool (VStr (fc_Enabled fc)) with
    | (true, None) =>
        let level := GetLevel (fc_Level fc) in
        if String.eqb typ "loglog" then [CLoadLogLog level (fc_Pattern fc)]
        else if String.eqb typ "stdout" then [CLoadStdout level (fc_Pattern fc)]
        else
          match loadAppender now mkdir_ok level SILENT (GetAppenderNewFunc typ)
                  (fc_Properties fc) with
          | Some appender => [CFiltersAdd tag level appender]
          | None => []
          end
    | _ => []
    end.

(** [LoadConfiguration(log, lc)]: [None] when it returns early without
    touching the logger's filters ([lc] nil or without filters);
    otherwise the calls made, after which [log.SetFilters(filters)]
    installs the filters added. *)
Definition LoadConfiguration (lc : option (list FilterConfig))
  : option (list config_call) :=
  match lc with
  | None => None
  | Some [] => None
  | Some fs => Some (flat_map load_filter fs)
  end.
End LoadConfiguration.

(** The spellings [strconv.ParseBool] reads as true. *)
Definition true_spellings : list string := ["1"; "t"; "T"; "TRUE"; "true"; "True"]%string.

(** ** Invariants of the appender *)

(** The sink's own size threshold follows the rotation mode. *)
Definition threshold_mode_ok (fa : FileAppender) : Prop :=
  rf_maxsize (out fa) = (if cycle fa <=? 0 then maxsize fa else 0).

(** [loopRunning] says whether a write loop is alive. *)
Definition loop_flag_ok (w : World) : Prop :=
  loopRunning (w_fa w) = match w_loop w with LoopRunning _ => true | _ => false end.

(** The last call the sink received is a [Write]. *)
Definition ends_with_write (calls : list sink_call) : bool :=
  match rev calls with CWrite _ :: _ => true | _ => false end.

(** Whether [SetOption(name, v)] posts a reschedule token when the loop runs. *)
Definition posts_reset (name : string) (v : value) : bool :=
  if String.eqb name "cycle"
  then match int_or_duration v with Some _ => true | None => false end
  else if String.eqb name "clock" || String.eqb name "delay0"
  then match int_or_duration v with Some _ => true | None => false end
  else if String.eqb name "daily"
  then match daily_of v with Some true => true | _ => false end
  else false.

(** The option names delegated to the formatting layer. *)
Definition layout_option_names : list string := ["pattern"; "format"; "utc"]%string.

(** Duration units with their length in nanoseconds and in seconds. *)
Definition second_units : list (string * Z * Z) :=
  [("s"%string, ns_per_s, 1); ("m"%string, 60 * ns_per_s, 60);
   ("h"%string, 3600 * ns_per_s, 3600)].

(** * Lemmas *)

(** ** The sink's call log *)

Lemma calls_log_call c w : rf_calls (log_call c w) = rf_calls w ++ [c].
Proof. reflexivity. Qed.

Lemma calls_rotate_file w : rf_calls (rotate_file w) = rf_calls w.
Proof. reflexivity. Qed.

Lemma calls_Write bb w : rf_calls (Write bb w) = rf_calls w ++ [CWrite bb].
Proof.
  unfold Write; destruct (_ && _); reflexivity.
Qed.

Lemma writes_app_call w c :
  writes_of (rf_update w (rf_maxsize w) (rf_maxbackup w) (rf_flush w)
               (rf_cur w) (rf_backups w) (rf_calls w ++ [c]))
  = writes_of w ++ match c with CWrite bb => [bb] | _ => [] end.
Proof.
  unfold writes_of; simpl. rewrite flat_map_app; simpl. now rewrite app_nil_r.
Qed.

Lemma writes_Write bb w : writes_of (Write bb w) = writes_of w ++ [bb].
Proof.
  unfold writes_of; rewrite calls_Write, flat_map_app; reflexivity.
Qed.

Lemma writes_Flush w : writes_of (Flush w) = writes_of w.
Proof.
  unfold writes_of, Flush; rewrite calls_log_call, flat_map_app; simpl.
  now rewrite app_nil_r.
Qed.

Lemma writes_Rotate w : writes_of (Rotate w) = writes_of w.
Proof.
  unfold writes_of, Rotate; rewrite calls_rotate_file, calls_log_call, flat_map_app.
  simpl; now rewrite app_nil_r.
Qed.

Lemma writes_Close w : writes_of (Close w) = writes_of w.
Proof.
  unfold writes_of, Close; simpl; rewrite flat_map_app; simpl.
  now rewrite app_nil_r.
Qed.

Lemma writes_fold_Write l w :
  writes_of (fold_left (fun o b => Write b o) l w) = writes_of w ++ l.
Proof.
  revert w; induction l as [|b l IH]; intro w; simpl.
  - now rewrite app_nil_r.
  - rewrite IH, writes_Write, <- app_assoc; reflexivity.
Qed.

Lemma rotate_check_messages fa :
  messages (rotate_check fa) = messages fa
  /\ messages_closed (rotate_check fa) = messages_closed fa
  /\ writes_of (out (rotate_check fa)) = writes_of (out fa).
Proof.
  unfold rotate_check; destruct (_ && _); simpl; auto.
  rewrite writes_Rotate; auto.
Qed.

(** [SetOption] touches neither the message channel nor the sink's calls. *)
Lemma SetOption_frame now ok name v fa :
  let fa' := fst (SetOption now ok name v fa) in
  messages fa' = messages fa /\ messages_closed fa' = messages_closed fa
  /\ rf_calls (out fa') = rf_calls (out fa).
Proof.
  unfold SetOption, post_reset.
  repeat match goal with
  | |- context [if ?b then _ else _] => destruct b
  | |- context [match ?x with _ => _ end] => destruct x
  end; simpl; auto.
Qed.

(** ** The write loop's FIFO invariant *)

(** While the loop runs, what it has written followed by what is still
    buffered is [base]; once it has returned it has written [base] and then
    the empty message of the closed receive. *)
Definition loop_inv (base : list (list byte)) (w : World) : Prop :=
  match w_loop w with
  | LoopRunning _ => writes_of (out (w_fa w)) ++ messages (w_fa w) = base
  | LoopReturned =>
      writes_of (out (w_fa w)) = base ++ [[]]
      /\ messages (w_fa w) = [] /\ messages_closed (w_fa w) = true
  | LoopNotStarted => False
  end.

Lemma writeLoop_step_inv now zone e nrt fa fa' r :
  writeLoop_step now zone e nrt fa = Some (fa', r) ->
  match r with
  | Some _ => writes_of (out fa') ++ messages fa' = writes_of (out fa) ++ messages fa
              /\ messages_closed fa' = messages_closed fa
  | None => writes_of (out fa') = writes_of (out fa) ++ messages fa ++ [[]]
            /\ messages fa' = [] /\ messages_closed fa' = true
  end.
Proof.
  destruct e; simpl.
  - destruct (messages fa) as [|bb rest] eqn:Hm.
    + destruct (messages_closed fa) eqn:Hc; [|discriminate].
      intro H; inversion H; subst; clear H; simpl.
      rewrite writes_Flush, writes_Write. auto.
    + intro H; inversion H; subst; clear H; simpl.
      split; [|reflexivity].
      destruct (Z.of_nat _ <=? 0);
        [rewrite writes_Flush|]; rewrite writes_Write, <- app_assoc; reflexivity.
  - destruct (now <? nrt); [discriminate|].
    intro H; inversion H; subst; clear H.
    destruct (rotate_check_messages fa) as (-> & -> & ->); auto.
  - destruct (loopReset fa) as [|t rest]; [destruct (loopReset_closed fa); [|discriminate]|];
      intro H; inversion H; subst; clear H; simpl; auto.
Qed.

Lemma world_step_inv base a w w' :
  loop_inv base w -> world_step a w = Some w' -> a <> AInit ->
  loop_inv (base ++ enqueued [a]) w'.
Proof.
  intros Hinv Hstep Hna.
  destruct a as [bb| | |e|dt|name v|]; simpl in Hstep |- *; try congruence.
  - (* AWrite *)
    destruct (messages_closed (w_fa w)) eqn:Hc; [discriminate|].
    destruct (_ <=? _)%nat; [discriminate|].
    inversion Hstep; subst; clear Hstep.
    unfold loop_inv in *; simpl in *.
    destruct (w_loop w); try contradiction.
    + rewrite app_assoc, Hinv; reflexivity.
    + destruct Hinv as (_ & _ & Hc'); congruence.
  - (* ACloseQueue *)
    destruct (messages_closed (w_fa w)) eqn:Hc; [discriminate|].
    inversion Hstep; subst; clear Hstep.
    unfold loop_inv in *; simpl in *; rewrite app_nil_r.
    destruct (w_loop w); try contradiction; auto.
    destruct Hinv as (_ & _ & Hc'); congruence.
  - (* ACloseRelease *)
    destruct (negb _ || _); [discriminate|].
    inversion Hstep; subst; clear Hstep.
    unfold loop_inv in *; simpl in *; rewrite app_nil_r, writes_Close.
    destruct (w_loop w); auto.
  - (* ALoop *)
    rewrite app_nil_r.
    destruct (w_loop w) as [|nrt|] eqn:Hl; try discriminate.
    unfold loop_inv in Hinv; rewrite Hl in Hinv.
    destruct (writeLoop_step _ _ e nrt _) as [[fa' [nrt'|]]|] eqn:Hs; try discriminate;
      inversion Hstep; subst w'; clear Hstep; apply writeLoop_step_inv in Hs;
      unfold loop_inv; simpl.
    + destruct Hs as [-> _]; exact Hinv.
    + destruct Hs as (-> & -> & ->). rewrite <- Hinv, <- app_assoc; auto.
  - (* ATick *)
    destruct (dt <? 0); [discriminate|].
    inversion Hstep; subst w'; clear Hstep; rewrite app_nil_r; exact Hinv.
  - (* ASetOption *)
    inversion Hstep; subst w'; clear Hstep; rewrite app_nil_r.
    destruct (SetOption_frame (w_now w) (w_mkdir_ok w) name v (w_fa w)) as (Hm & Hc & Hcalls).
    unfold loop_inv, writes_of in *; simpl.
    rewrite Hm, Hc, Hcalls; exact Hinv.
Qed.

Lemma run_inv base acts w w' :
  loop_inv base w -> run acts w = Some w' -> ~ In AInit acts ->
  loop_inv (base ++ enqueued acts) w'.
Proof.
  revert base w; induction acts as [|a acts IH]; intros base w Hinv Hrun Hni; simpl in Hrun.
  - inversion Hrun; subst; simpl; now rewrite app_nil_r.
  - destruct (world_step a w) as [w1|] eqn:Hs; [|discriminate].
    assert (Ha : a <> AInit) by (intro; apply Hni; left; auto).
    pose proof (world_step_inv base a w w1 Hinv Hs Ha) as H1.
    specialize (IH _ _ H1 Hrun (fun H => Hni (or_intror H))).
    replace (enqueued (a :: acts)) with (enqueued [a] ++ enqueued acts)
      by (simpl; now rewrite app_nil_r).
    now rewrite app_assoc.
Qed.

Lemma run_loop_returned nrt acts w w' :
  w_loop w = LoopRunning nrt -> run acts w = Some w' -> ~ In AInit acts ->
  w_loop w' = LoopReturned ->
  writes_of (out (w_fa w')) = writes_of (out (w_fa w)) ++ messages (w_fa w) ++ enqueued acts ++ [[]].
Proof.
  intros Hl Hrun Hni Hl'.
  assert (H0 : loop_inv (writes_of (out (w_fa w)) ++ messages (w_fa w)) w)
    by (unfold loop_inv; rewrite Hl; reflexivity).
  pose proof (run_inv _ _ _ _ H0 Hrun Hni) as H.
  unfold loop_inv in H; rewrite Hl' in H; destruct H as [-> _].
  now rewrite <- !app_assoc.
Qed.

(** ** Concrete schedules *)

(** A fresh appender after [Init] at time 0 in UTC: time-cycle mode
    (cycle 86400, clock -1, maxsize 0), first deadline one day later. *)
Definition w_started : World := Init (fresh_world "app.log" 1 0 0).

(** "a" is written, the timer fires a day later and rotates, "b" is
    written, then [Close] closes the queue and the loop drains and returns. *)
Definition sched_rotate : list action :=
  [AWrite (bytes "a"); ALoop EvMessage; ATick (86400 * ns_per_s); ALoop EvTimer;
   AWrite (bytes "b"); ALoop EvMessage; ACloseQueue; ALoop EvMessage].

(** From a fresh appender: [Init], two writes, a switch to size mode with
    a 1K threshold (posting a reschedule token), the loop taking a message
    and the token, [Close], the loop draining and returning, and a second
    [Init] that starts a new loop. *)
Definition sched_mixed : list action :=
  [AInit; AWrite (bytes "a"); AWrite (bytes "b"); ASetOption "cycle" (VInt 0);
   ASetOption "maxsize" (VStr "1K"); ALoop EvMessage; ALoop EvReset;
   ACloseQueue; ALoop EvMessage; ALoop EvMessage; ACloseRelease; AInit].

(** * Claims *)

(** ** C1: order preservation *)

(** C1 (counterexample): the messages "a" then "b" are enqueued before
    [Close], but a timer-driven rotation between them leaves the final file
    holding "b" only ("a" is in the archived generation). *)
Lemma C1_final_file_lacks_first_message :
  match run sched_rotate w_started with
  | Some w =>
      enqueued sched_rotate = [bytes "a"; bytes "b"]
      /\ w_loop w = LoopReturned
      /\ rf_cur (out (w_fa w)) = bytes "b"
      /\ rf_backups (out (w_fa w)) = [bytes "a"]
  | None => False
  end.
Proof. vm_compute. repeat split. Qed.

(** C1 (amended): over any schedule of producer writes, option changes,
    timer and reschedule events, time steps and [Close] that takes the
    running loop to its return, the loop's sink [Write] calls are exactly
    the messages buffered and enqueued, in FIFO order and each once,
    followed by one empty write; rotations are not writes, so they only
    split this sequence into file generations. *)
Theorem writeLoop_writes_fifo nrt acts w w' :
  w_loop w = LoopRunning nrt -> run acts w = Some w' -> ~ In AInit acts ->
  w_loop w' = LoopReturned ->
  writes_of (out (w_fa w')) =
    writes_of (out (w_fa w)) ++ (messages (w_fa w) ++ enqueued acts) ++ [[]].
Proof.
  intros Hl Hrun Hni Hl'.
  rewrite (run_loop_returned nrt acts w w' Hl Hrun Hni Hl'), <- app_assoc; reflexivity.
Qed.

Lemma writeLoop_writes_fifo_witness :
  match run sched_rotate w_started with
  | Some w' =>
      writes_of (out (w_fa w')) =
        writes_of (out (w_fa w_started))
        ++ (messages (w_fa w_started) ++ enqueued sched_rotate) ++ [[]]
  | None => False
  end.
Proof.
  destruct (run sched_rotate w_started) as [w'|] eqn:E.
  - apply (writeLoop_writes_fifo (86400 * ns_per_s) sched_rotate w_started w');
      [reflexivity | exact E | simpl; intuition discriminate |].
    vm_compute in E; inversion E; reflexivity.
  - vm_compute in E; discriminate.
Defined.

(** ** C10: the extra empty write at shutdown *)

(** C10: when the loop runs until the closed receive makes it return, it
    writes the buffered and enqueued messages plus exactly one more
    message, the empty one, last. *)
Theorem shutdown_extra_empty_write nrt acts w w' :
  w_loop w = LoopRunning nrt -> run acts w = Some w' -> ~ In AInit acts ->
  w_loop w' = LoopReturned ->
  List.length (writes_of (out (w_fa w'))) =
    (List.length (writes_of (out (w_fa w)))
     + List.length (messages (w_fa w) ++ enqueued acts) + 1)%nat
  /\ last (writes_of (out (w_fa w'))) [Byte.x00] = [].
Proof.
  intros Hl Hrun Hni Hl'.
  rewrite (run_loop_returned nrt acts w w' Hl Hrun Hni Hl').
  split.
  - rewrite !length_app; simpl; lia.
  - rewrite !app_assoc, last_last; reflexivity.
Qed.

Lemma shutdown_extra_empty_write_witness :
  match run sched_rotate w_started with
  | Some w' =>
      List.length (writes_of (out (w_fa w'))) =
        (List.length (writes_of (out (w_fa w_started)))
         + List.length (messages (w_fa w_started) ++ enqueued sched_rotate) + 1)%nat
      /\ last (writes_of (out (w_fa w'))) [Byte.x00] = []
  | None => False
  end.
Proof.
  destruct (run sched_rotate w_started) as [w'|] eqn:E.
  - apply (shutdown_extra_empty_write (86400 * ns_per_s) sched_rotate w_started w');
      [reflexivity | exact E | simpl; intuition discriminate |].
    vm_compute in E; inversion E; reflexivity.
  - vm_compute in E; discriminate.
Defined.

(** ** C2: the next rotation deadline *)

Lemma wrap64_small z : minInt64 <= z <= maxInt64 -> wrap64 z = z.
Proof.
  unfold wrap64, minInt64, maxInt64, two63, two64; intros [Hlo Hhi].
  destruct (Z_le_gt_dec 0 z) as [Hz|Hz].
  - rewrite Z.mod_small by lia.
    rewrite Z.geb_leb; destruct (Z.leb_spec 9223372036854775808 z); lia.
  - rewrite <- (Z_mod_plus_full z 1), Z.mod_small by lia.
    rewrite Z.geb_leb; destruct (Z.leb_spec 9223372036854775808 (z + 1 * 18446744073709551616)); lia.
Qed.

Lemma dur_seconds_small n : 0 <= n <= 9223372036 -> dur_seconds n = n * ns_per_s.
Proof.
  intro H; unfold dur_seconds, ns_per_s.
  rewrite (wrap64_small n) by (unfold minInt64, maxInt64, two63; lia).
  apply wrap64_small; unfold minInt64, maxInt64, two63; lia.
Qed.

Lemma date_midnight_spec zone t :
  let m := date_midnight zone t in
  m <= t < m + seconds_per_day * ns_per_s
  /\ m mod ns_per_s = 0 /\ (m / ns_per_s + zone) mod seconds_per_day = 0.
Proof.
  unfold date_midnight, seconds_per_day, ns_per_s.
  pose proof (Z.div_mod t 1000000000 ltac:(lia)) as Ht.
  pose proof (Z.mod_pos_bound t 1000000000 ltac:(lia)) as Hr.
  set (q := t / 1000000000) in *.
  pose proof (Z.div_mod (q + zone) 86400 ltac:(lia)) as Hl.
  pose proof (Z.mod_pos_bound (q + zone) 86400 ltac:(lia)) as Hr2.
  set (r := (q + zone) mod 86400) in *.
  replace (q + zone - r - zone) with (q - r) by lia.
  split; [|split].
  - lia.
  - apply Z_mod_mult.
  - rewrite Z.div_mul by lia.
    replace (q - r + zone) with ((q + zone) / 86400 * 86400) by lia.
    apply Z_mod_mult.
Qed.

(** C2 (counterexample): with cycle = 10^10 seconds and clock = -1, the
    int64 product [time.Duration(cycle) * time.Second] wraps and the
    deadline lies before [now], not [now + cycle] seconds. *)
Lemma C2_cycle_duration_wraps :
  nextTime 0 0 10000000000 (-1) = -8446744073709551616
  /\ nextTime 0 0 10000000000 (-1) <> 0 + 10000000000 * ns_per_s.
Proof. split; vm_compute; [reflexivity | discriminate]. Qed.

(** C2 (amended): when cycle and clock are at most 9223372036 seconds (so
    that a [time.Duration] in nanoseconds holds them), the effective cycle
    is 86400 if cycle <= 0 and cycle otherwise; with clock < 0 the deadline
    is now + cycle seconds; with clock >= 0 it is [m] + clock seconds, where
    [m] is the local midnight (a whole second, at a multiple of a day in the
    zone) of the day holding now + cycle seconds. *)
Theorem nextTime_deadline now zone cycle clock :
  cycle <= 9223372036 -> clock <= 9223372036 ->
  let c := if cycle <=? 0 then 86400 else cycle in
  let candidate := now + c * ns_per_s in
  (clock < 0 -> nextTime now zone cycle clock = candidate)
  /\ (0 <= clock ->
      exists m, nextTime now zone cycle clock = m + clock * ns_per_s
        /\ m <= candidate < m + seconds_per_day * ns_per_s
        /\ m mod ns_per_s = 0 /\ (m / ns_per_s + zone) mod seconds_per_day = 0).
Proof.
  intros Hc Hk c candidate.
  assert (Hc' : dur_seconds c = c * ns_per_s).
  { apply dur_seconds_small; unfold c; destruct (cycle <=? 0) eqn:E;
      [lia | apply Z.leb_gt in E; lia]. }
  unfold nextTime; fold c.
  split; intro Hcl.
  - destruct (clock <? 0) eqn:E; [|apply Z.ltb_ge in E; lia].
    rewrite Hc'; reflexivity.
  - destruct (clock <? 0) eqn:E; [apply Z.ltb_lt in E; lia|].
    rewrite Hc', dur_seconds_small by lia.
    exists (date_midnight zone candidate); split; [reflexivity|].
    apply date_midnight_spec.
Qed.

Lemma nextTime_deadline_witness :
  exists m, nextTime 0 3600 86400 3600 = m + 3600 * ns_per_s
    /\ m <= 0 + 86400 * ns_per_s < m + seconds_per_day * ns_per_s
    /\ m mod ns_per_s = 0 /\ (m / ns_per_s + 3600) mod seconds_per_day = 0.
Proof.
  exact (proj2 (nextTime_deadline 0 3600 86400 3600 ltac:(lia) ltac:(lia)) ltac:(lia)).
Defined.

(** ** C3: timer and reschedule events *)

(** C3: when the timer has fired ([nrt <= now]), whether or not a
    reschedule token is pending, the timer case rearms the timer for
    [nextTime] of the current time, cycle and clock, and adds a [Rotate]
    call to the sink exactly when cycle > 0 and the sink's size exceeds
    maxsize; when a reschedule token is pending, whatever the current
    deadline, the token case consumes it, rearms the timer the same way and
    leaves the sink untouched. *)
Theorem timer_and_reset_events now zone nrt fa :
  (nrt <= now ->
   exists fa' extra,
      writeLoop_step now zone EvTimer nrt fa
        = Some (fa', Some (nextTime now zone (cycle fa) (clock fa)))
      /\ rf_calls (out fa') = rf_calls (out fa) ++ extra
      /\ ((extra = [CRotate] /\ 0 < cycle fa /\ maxsize fa < Size (out fa))
          \/ (extra = [] /\ ~ (0 < cycle fa /\ maxsize fa < Size (out fa)))))
  /\ (loopReset fa <> [] ->
      exists fa',
      writeLoop_step now zone EvReset nrt fa
        = Some (fa', Some (nextTime now zone (cycle fa) (clock fa)))
      /\ out fa' = out fa /\ loopReset fa' = tl (loopReset fa)).
Proof.
  split.
  - intro Hnow; simpl. destruct (now <? nrt) eqn:E; [apply Z.ltb_lt in E; lia|].
    unfold rotate_check.
    destruct (0 <? cycle fa) eqn:Ec; destruct (maxsize fa <? Size (out fa)) eqn:Es;
      simpl.
    + exists (set_out (Rotate (out fa)) fa), [CRotate]; repeat split; auto.
      left; repeat split; lia.
    + exists fa, []; rewrite app_nil_r; repeat split; auto.
      right; split; [reflexivity | lia].
    + exists fa, []; rewrite app_nil_r; repeat split; auto.
      right; split; [reflexivity | lia].
    + exists fa, []; rewrite app_nil_r; repeat split; auto.
      right; split; [reflexivity | lia].
  - intro Hr; simpl. destruct (loopReset fa) as [|t rest] eqn:El; [congruence|].
    eexists; split; [reflexivity|split; reflexivity].
Qed.

(** The started appender, no token pending, at its deadline; and the same
    appender with a token pending a day before its deadline. *)
Lemma timer_and_reset_events_witness :
  (exists fa' extra,
      writeLoop_step (86400 * ns_per_s) 0 EvTimer (86400 * ns_per_s) (w_fa w_started)
        = Some (fa', Some (nextTime (86400 * ns_per_s) 0 (cycle (w_fa w_started))
                             (clock (w_fa w_started))))
      /\ rf_calls (out fa') = rf_calls (out (w_fa w_started)) ++ extra
      /\ ((extra = [CRotate] /\ 0 < cycle (w_fa w_started)
           /\ maxsize (w_fa w_started) < Size (out (w_fa w_started)))
          \/ (extra = [] /\ ~ (0 < cycle (w_fa w_started)
               /\ maxsize (w_fa w_started) < Size (out (w_fa w_started))))))
  /\ loopReset (w_fa w_started) = []
  /\ (exists fa',
      writeLoop_step 0 0 EvReset (86400 * ns_per_s) (set_loopReset [0] (w_fa w_started))
        = Some (fa', Some (nextTime 0 0 (cycle (set_loopReset [0] (w_fa w_started)))
                             (clock (set_loopReset [0] (w_fa w_started)))))
      /\ out fa' = out (set_loopReset [0] (w_fa w_started))
      /\ loopReset fa' = tl (loopReset (set_loopReset [0] (w_fa w_started)))).
Proof.
  split; [|split; [reflexivity|]].
  - exact (proj1 (timer_and_reset_events (86400 * ns_per_s) 0 (86400 * ns_per_s)
                    (w_fa w_started)) ltac:(lia)).
  - exact (proj2 (timer_and_reset_events 0 0 (86400 * ns_per_s)
                    (set_loopReset [0] (w_fa w_started))) ltac:(vm_compute; discriminate)).
Defined.

(** ** C4: the sink threshold follows the rotation mode *)

(** C4: a "cycle" call that succeeds leaves the sink's threshold at maxsize
    when the new cycle is <= 0 and at 0 (unlimited) otherwise; a "maxsize"
    call that succeeds stores the new maxsize and sets the threshold to it
    exactly when the current cycle is <= 0, leaving it alone otherwise.
    A value of the wrong type is refused and changes nothing. *)
Theorem SetOption_threshold_mode now ok v fa :
  (let '(fa', err) := SetOption now ok "cycle" v fa in
   (err = None /\ rf_maxsize (out fa') = (if cycle fa' <=? 0 then maxsize fa' else 0))
   \/ (err = Some ErrBadValue /\ fa' = fa))
  /\ (let '(fa', err) := SetOption now ok "maxsize" v fa in
      match int_or_suffix v 1024 with
      | Some ms =>
          err = None /\ maxsize fa' = ms /\ cycle fa' = cycle fa
          /\ rf_maxsize (out fa') = (if cycle fa <=? 0 then ms else rf_maxsize (out fa))
      | None => err = Some ErrBadValue /\ fa' = fa
      end).
Proof.
  split.
  - unfold SetOption; simpl.
    destruct (int_or_duration v) as [c|]; [|right; auto].
    left; split; [reflexivity|].
    unfold post_reset; simpl.
    destruct (c <=? 0) eqn:E; simpl; destruct (loopRunning fa); simpl; rewrite ?E; reflexivity.
  - unfold SetOption; simpl.
    destruct (int_or_suffix v 1024) as [ms|]; [|auto].
    simpl; destruct (cycle fa <=? 0); repeat split; reflexivity.
Qed.

(** ** C5: daily *)

(** What "daily" does with a value read as [true]. *)
Lemma SetOption_daily_on now ok v fa :
  (v = VBool true \/ exists s, v = VStr s /\ Trim s ws_cutset <> "false"%string) ->
  let '(fa', err) := SetOption now ok "daily" v fa in
  err = None /\ cycle fa' = 86400 /\ clock fa' = 0 /\ maxsize fa' = 0
  /\ rf_maxsize (out fa') = 0
  /\ loopReset fa' = loopReset fa ++ (if loopRunning fa then [now] else []).
Proof.
  intros [-> | [s [-> Hs]]]; unfold SetOption; simpl;
    [| rewrite (proj2 (String.eqb_neq _ _) Hs); simpl];
    unfold post_reset; simpl; destruct (loopRunning fa); simpl;
    repeat split; try reflexivity; now rewrite app_nil_r.
Qed.

(** C5 (counterexample): "False", "FALSE" and "0" denote false, yet
    "daily" with any of them switches daily rotation on: an appender with
    cycle 3600 ends up with cycle 86400. *)
Lemma C5_False_turns_daily_on :
  let fa := set_cycle 3600 (NewAppender "app.log" 1) in
  cycle fa = 3600
  /\ cycle (fst (SetOption 0 true "daily" (VStr "False") fa)) = 86400
  /\ cycle (fst (SetOption 0 true "daily" (VStr "FALSE") fa)) = 86400
  /\ cycle (fst (SetOption 0 true "daily" (VStr "0") fa)) = 86400.
Proof. vm_compute. repeat split. Qed.

(** C5 (amended): "daily" with the bool [true], or with any string that
    is not exactly "false" once spaces, CRs and LFs are trimmed, returns
    nil and in the one call sets cycle 86400, clock 0, maxsize 0 and the
    sink's threshold 0, posting a reschedule token exactly when the loop
    runs; with the bool [false] or a string trimming to "false" it returns
    nil and changes nothing; a value of any other type is refused with
    [ErrBadValue] and changes nothing. *)
Theorem SetOption_daily now ok fa :
  (forall v, (v = VBool true \/ exists s, v = VStr s /\ Trim s ws_cutset <> "false"%string) ->
   let '(fa', err) := SetOption now ok "daily" v fa in
   err = None /\ cycle fa' = 86400 /\ clock fa' = 0 /\ maxsize fa' = 0
   /\ rf_maxsize (out fa') = 0
   /\ loopReset fa' = loopReset fa ++ (if loopRunning fa then [now] else []))
  /\ (forall v, (v = VBool false \/ exists s, v = VStr s /\ Trim s ws_cutset = "false"%string) ->
      SetOption now ok "daily" v fa = (fa, None))
  /\ (forall v, (forall b, v <> VBool b) -> (forall s, v <> VStr s) ->
      SetOption now ok "daily" v fa = (fa, Some ErrBadValue)).
Proof.
  split; [intros v Hv; apply SetOption_daily_on; exact Hv|split].
  - intros v [-> | [s [-> Hs]]]; unfold SetOption; simpl; [reflexivity|].
    rewrite Hs; reflexivity.
  - intros v Hb Hs; destruct v as [n|str|b|]; try reflexivity.
    + exfalso; exact (Hs str eq_refl).
    + exfalso; exact (Hb b eq_refl).
Qed.

Lemma SetOption_daily_witness :
  (let '(fa', err) := SetOption 5 true "daily" (VStr "False") (w_fa w_started) in
   err = None /\ cycle fa' = 86400 /\ clock fa' = 0 /\ maxsize fa' = 0
   /\ rf_maxsize (out fa') = 0
   /\ loopReset fa' = loopReset (w_fa w_started)
                      ++ (if loopRunning (w_fa w_started) then [5] else []))
  /\ SetOption 5 true "daily" (VStr " false") (w_fa w_started) = (w_fa w_started, None)
  /\ SetOption 5 true "daily" (VInt 1) (w_fa w_started) = (w_fa w_started, Some ErrBadValue).
Proof.
  destruct (SetOption_daily 5 true (w_fa w_started)) as (H1 & H2 & H3).
  split; [|split].
  - apply H1; right; exists "False"%string; split; [reflexivity|].
    vm_compute; discriminate.
  - apply H2; right; exists " false"%string; split; reflexivity.
  - apply H3; intros; discriminate.
Defined.

(** ** C7: unknown option names *)

(** C7: a name outside the recognised keys yields [ErrBadOption] and the
    appender, sink included, is returned unchanged. *)
Theorem SetOption_unknown_name now ok name v fa :
  ~ In name option_names ->
  SetOption now ok name v fa = (fa, Some ErrBadOption).
Proof.
  intro Hn; unfold SetOption.
  repeat match goal with
  | |- context [String.eqb name ?s] =>
      let E := fresh "E" in
      destruct (String.eqb name s) eqn:E;
      [apply String.eqb_eq in E; subst; exfalso; apply Hn; simpl; tauto |]
  end.
  reflexivity.
Qed.

Lemma SetOption_unknown_name_witness :
  SetOption 0 true "bogus" (VInt 1) (w_fa w_started) = (w_fa w_started, Some ErrBadOption).
Proof.
  apply SetOption_unknown_name; simpl; intuition discriminate.
Defined.

(** ** C8: Init *)

(** C8: a first [Init] (loop not running) sets [loopRunning], spawns one
    loop, and returns with the loop's prologue done: the rotation check
    (a [Rotate] call exactly when cycle > 0 and size > maxsize) and the
    timer armed for [nextTime]; any [Init] while [loopRunning] holds,
    such as a second one, returns the state unchanged. *)
Theorem Init_idempotent w :
  loopRunning (w_fa w) = false ->
  let w1 := Init w in
  loopRunning (w_fa w1) = true
  /\ w_tasks w1 = S (w_tasks w)
  /\ w_loop w1 = LoopRunning (nextTime (w_now w) (w_zone w) (cycle (w_fa w)) (clock (w_fa w)))
  /\ rf_calls (out (w_fa w1)) = rf_calls (out (w_fa w))
       ++ (if (0 <? cycle (w_fa w)) && (maxsize (w_fa w) <? Size (out (w_fa w)))
           then [CRotate] else [])
  /\ Init w1 = w1
  /\ (forall w', loopRunning (w_fa w') = true -> Init w' = w').
Proof.
  intros Hr w1.
  assert (Hnr : forall w', loopRunning (w_fa w') = true -> Init w' = w')
    by (intros w' H; unfold Init; rewrite H; reflexivity).
  unfold w1, Init; rewrite Hr; unfold writeLoop_start, rotate_check; simpl.
  destruct (_ && _); simpl; repeat split; auto; rewrite ?app_nil_r; auto.
Qed.

Lemma Init_idempotent_witness :
  loopRunning (w_fa w_started) = true
  /\ w_tasks w_started = 1%nat
  /\ w_loop w_started = LoopRunning (86400 * ns_per_s)
  /\ Init w_started = w_started.
Proof.
  destruct (Init_idempotent (fresh_world "app.log" 1 0 0) eq_refl)
    as (Hr & Ht & Hl & _ & Hi & _).
  split; [exact Hr|]. split; [exact Ht|]. split; [exact Hl|]. exact Hi.
Defined.

(** ** C6: bad values *)

(** The option names whose value goes through a type switch. *)
Definition typed_option_names : list string :=
  ["filename"; "flush"; "maxbackup"; "maxsize"; "head"; "foot";
   "cycle"; "clock"; "delay0"; "daily"]%string.

(** The names whose string values are converted without any check. *)
Definition unchecked_string_names : list string :=
  ["flush"; "maxbackup"; "maxsize"; "cycle"; "clock"; "delay0"; "daily"]%string.

(** The dynamic types each type switch accepts. *)
Definition accepts (name : string) (v : value) : bool :=
  if String.eqb name "filename" || String.eqb name "head" || String.eqb name "foot"
  then match v with VStr _ => true | _ => false end
  else if String.eqb name "daily"
  then match v with VStr _ | VBool _ => true | _ => false end
  else match v with VInt _ | VStr _ => true | _ => false end.

(** C6 (counterexample): on a fresh appender, "cycle" and "clock" with the
    unparseable duration "abc", "maxsize" with the non-numeric "abc" and
    "daily" with "yes" all return nil, and they change the state: cycle
    86400 becomes 0, clock -1 becomes 0, "yes" switches daily mode on. *)
Lemma C6_unparseable_strings_accepted :
  let fa := NewAppender "app.log" 1 in
  cycle fa = 86400 /\ clock fa = -1
  /\ snd (SetOption 0 true "cycle" (VStr "abc") fa) = None
  /\ cycle (fst (SetOption 0 true "cycle" (VStr "abc") fa)) = 0
  /\ snd (SetOption 0 true "clock" (VStr "abc") fa) = None
  /\ clock (fst (SetOption 0 true "clock" (VStr "abc") fa)) = 0
  /\ snd (SetOption 0 true "maxsize" (VStr "abc") fa) = None
  /\ maxsize (fst (SetOption 0 true "maxsize" (VStr "abc") fa)) = 0
  /\ snd (SetOption 0 true "daily" (VStr "yes") fa) = None
  /\ clock (fst (SetOption 0 true "daily" (VStr "yes") fa)) = 0.
Proof. vm_compute. repeat split. Qed.

Lemma ParseInt10_no_digit l :
  Forall (fun c => is_digit c = false) l -> ParseInt10 l = (0, Some NumSyntax).
Proof.
  intro Hl; destruct l as [|x r]; [reflexivity|].
  inversion Hl as [|? ? Hx Hr]; subst.
  assert (Hu : forall b, Forall (fun c => is_digit c = false) b ->
             ParseUint10 b = (0, Some NumSyntax)).
  { intros [|y b] Hb; [reflexivity|]; inversion Hb; subst; simpl.
    match goal with H : is_digit y = false |- _ => rewrite H end; reflexivity. }
  unfold ParseInt10.
  destruct (Ascii.eqb x "+"%char); [|destruct (Ascii.eqb x "-"%char)];
    rewrite Hu by (try exact Hr; constructor; assumption); reflexivity.
Qed.

Lemma StrToNumSuffix_no_digit t mult :
  Forall (fun c => is_digit c = false) (list_ascii_of_string t) ->
  StrToNumSuffix t mult = 0.
Proof.
  intro Hs; unfold StrToNumSuffix.
  set (l := list_ascii_of_string t) in *.
  assert (Hbody : forall num body,
             Forall (fun c => is_digit c = false) body ->
             (let '(parsed, _) := ParseInt10 body in wrap64 (parsed * num)) = 0).
  { intros num body Hb; rewrite ParseInt10_no_digit by exact Hb; reflexivity. }
  destruct (1 <? List.length l)%nat; [|apply Hbody; exact Hs].
  destruct (rev l) as [|y r] eqn:Er; [apply Hbody; exact Hs|].
  destruct (suffix_power y); [apply Hbody; exact Hs|].
  apply Hbody.
  assert (Hl : l = rev r ++ [y]) by (rewrite <- rev_involutive at 1; rewrite Er; reflexivity).
  rewrite Hl in Hs; apply Forall_app in Hs; exact (proj1 Hs).
Qed.

(** C6 (amended): for each option with a type switch, a value of a
    dynamic type the switch does not take is refused with [ErrBadValue]
    and the appender is unchanged, and so is the empty file name; string
    values of flush, maxbackup, maxsize, cycle, clock, delay0 and daily
    are never refused: a duration [time.ParseDuration] rejects stores 0
    in cycle, clock or delay0, a string without any decimal digit stores
    0 in flush, maxbackup or maxsize, and every string other than "false"
    (after trimming) switches daily rotation on. *)
Theorem SetOption_bad_value now ok fa :
  (forall name v, In name typed_option_names -> accepts name v = false ->
   SetOption now ok name v fa = (fa, Some ErrBadValue))
  /\ (forall name s, In name unchecked_string_names ->
      snd (SetOption now ok name (VStr s) fa) = None)
  /\ SetOption now ok "filename" (VStr "") fa = (fa, Some ErrBadValue)
  /\ (forall s, ParseDuration s = None ->
      (snd (SetOption now ok "cycle" (VStr s) fa) = None
       /\ cycle (fst (SetOption now ok "cycle" (VStr s) fa)) = 0)
      /\ forall name, name = "clock"%string \/ name = "delay0"%string ->
         snd (SetOption now ok name (VStr s) fa) = None
         /\ clock (fst (SetOption now ok name (VStr s) fa)) = 0)
  /\ (forall s, Forall (fun c => is_digit c = false)
                  (list_ascii_of_string (Trim s ws_cutset)) ->
      SetOption now ok "flush" (VStr s) fa = (set_out (SetFlush 0 (out fa)) fa, None)
      /\ SetOption now ok "maxbackup" (VStr s) fa
         = (set_out (SetMaxBackup 0 (out fa)) fa, None)
      /\ snd (SetOption now ok "maxsize" (VStr s) fa) = None
      /\ maxsize (fst (SetOption now ok "maxsize" (VStr s) fa)) = 0)
  /\ (forall s, Trim s ws_cutset <> "false"%string ->
      snd (SetOption now ok "daily" (VStr s) fa) = None
      /\ cycle (fst (SetOption now ok "daily" (VStr s) fa)) = 86400
      /\ clock (fst (SetOption now ok "daily" (VStr s) fa)) = 0).
Proof.
  split; [|split; [|split; [reflexivity|split; [|split]]]].
  - intros name v Hn; simpl in Hn.
    repeat (destruct Hn as [<- | Hn]; [| ]); try contradiction;
      intro Ha; destruct v; simpl in Ha; try discriminate; reflexivity.
  - intros name s Hin; simpl in Hin.
    repeat (destruct Hin as [<- | Hin]; [| ]); try contradiction;
      unfold SetOption; simpl;
      repeat match goal with
      | |- context [if ?b then _ else _] => destruct b
      end; reflexivity.
  - intros s Hs; split.
    + unfold SetOption, int_or_duration, parse_duration_or_zero; rewrite Hs.
      simpl; unfold post_reset.
      repeat match goal with
      | |- context [if ?b then _ else _] => destruct b
      end; split; reflexivity.
    + intros name [-> | ->];
        unfold SetOption, int_or_duration, parse_duration_or_zero; rewrite Hs;
        simpl; unfold post_reset;
        repeat match goal with
        | |- context [if ?b then _ else _] => destruct b
        end; split; reflexivity.
  - intros s Hs; unfold SetOption, int_or_suffix.
    rewrite !(StrToNumSuffix_no_digit _ _ Hs); simpl.
    repeat split; destruct (cycle fa <=? 0); reflexivity.
  - intros s Hs.
    pose proof (SetOption_daily_on now ok (VStr s) fa
                  (or_intror (ex_intro _ s (conj eq_refl Hs)))) as H.
    destruct (SetOption now ok "daily" (VStr s) fa) as [fa' err]; simpl.
    destruct H as (H1 & H2 & H3 & _); auto.
Qed.

Lemma SetOption_bad_value_witness :
  SetOption 0 true "cycle" (VBool true) (w_fa w_started)
  = (w_fa w_started, Some ErrBadValue)
  /\ snd (SetOption 0 true "maxsize" (VStr "abc") (w_fa w_started)) = None
  /\ cycle (fst (SetOption 0 true "cycle" (VStr "abc") (w_fa w_started))) = 0
  /\ clock (fst (SetOption 0 true "delay0" (VStr "abc") (w_fa w_started))) = 0
  /\ maxsize (fst (SetOption 0 true "maxsize" (VStr " abc ") (w_fa w_started))) = 0
  /\ clock (fst (SetOption 0 true "daily" (VStr "no") (w_fa w_started))) = 0.
Proof.
  destruct (SetOption_bad_value 0 true (w_fa w_started))
    as (H1 & H2 & _ & H4 & H5 & H6).
  split; [|split; [|split; [|split; [|split]]]].
  - exact (H1 "cycle"%string (VBool true) ltac:(simpl; tauto) eq_refl).
  - exact (H2 "maxsize"%string "abc"%string ltac:(simpl; tauto)).
  - exact (proj2 (proj1 (H4 "abc"%string ltac:(vm_compute; reflexivity)))).
  - exact (proj2 (proj2 (H4 "abc"%string ltac:(vm_compute; reflexivity))
                   "delay0"%string (or_intror eq_refl))).
  - exact (proj2 (proj2 (proj2 (H5 " abc "%string
                                  ltac:(vm_compute; repeat constructor))))).
  - exact (proj2 (proj2 (H6 "no"%string ltac:(vm_compute; discriminate)))).
Defined.

(** ** C9: sizes with K/M/G suffixes *)

(** The number a string of decimal digits denotes. *)
Definition digits_value (d : list ascii) : Z :=
  fold_left (fun a c => a * 10 + digit_val c) d 0.

(** The suffixes and the power of [mult] each stands for. *)
Definition size_suffixes : list (ascii * nat) :=
  [("K"%char, 1%nat); ("k"%char, 1%nat); ("M"%char, 2%nat); ("m"%char, 2%nat);
   ("G"%char, 3%nat); ("g"%char, 3%nat)].

Lemma digit_val_bounds c : is_digit c = true -> 0 <= digit_val c <= 9.
Proof.
  unfold is_digit, digit_val; intro H; apply andb_prop in H as [H1 H2].
  apply Z.leb_le in H1, H2; lia.
Qed.

Lemma fold_digits_ge l a :
  Forall (fun c => is_digit c = true) l -> 0 <= a ->
  a <= fold_left (fun a c => a * 10 + digit_val c) l a.
Proof.
  revert a; induction l as [|c l IH]; intros a Hl Ha; simpl; [lia|].
  inversion Hl; subst. pose proof (digit_val_bounds c ltac:(assumption)).
  specialize (IH (a * 10 + digit_val c) ltac:(assumption) ltac:(lia)); lia.
Qed.

Lemma parse_uint10_loop_digits l a :
  Forall (fun c => is_digit c = true) l -> 0 <= a ->
  fold_left (fun a c => a * 10 + digit_val c) l a <= maxUint64 ->
  parse_uint10_loop a l = (fold_left (fun a c => a * 10 + digit_val c) l a, None).
Proof.
  revert a; induction l as [|c l IH]; intros a Hl Ha Hmax; simpl in *; [reflexivity|].
  inversion Hl as [|? ? Hc Hl']; subst. rewrite Hc; simpl.
  pose proof (digit_val_bounds c Hc).
  pose proof (fold_digits_ge l (a * 10 + digit_val c) Hl' ltac:(lia)).
  assert (Hcut : uint_cutoff = 1844674407370955162) by reflexivity.
  unfold maxUint64, two64 in *.
  destruct (a >=? uint_cutoff) eqn:E1; [rewrite Hcut in E1; apply Z.geb_le in E1; lia|].
  destruct (a * 10 + digit_val c >? 18446744073709551616 - 1) eqn:E2;
    [apply Z.gtb_lt in E2; lia|].
  apply IH; auto; lia.
Qed.

Lemma digit_not_sign c : is_digit c = true ->
  Ascii.eqb c "+"%char = false /\ Ascii.eqb c "-"%char = false.
Proof.
  intro H; split; destruct (Ascii.eqb _ _) eqn:E; auto;
    apply Ascii.eqb_eq in E; subst; discriminate H.
Qed.

Lemma ParseInt10_digits d :
  d <> [] -> Forall (fun c => is_digit c = true) d -> digits_value d <= maxInt64 ->
  ParseInt10 d = (digits_value d, None).
Proof.
  intros Hne Hd Hmax; destruct d as [|x d']; [congruence|].
  inversion Hd as [|? ? Hx _]; subst.
  destruct (digit_not_sign x Hx) as [Hp Hm].
  unfold ParseInt10; rewrite Hp, Hm; cbn -[ParseUint10 parse_uint10_loop].
  change (ParseUint10 (x :: d')) with (parse_uint10_loop 0 (x :: d')).
  rewrite parse_uint10_loop_digits; [| exact Hd | lia |].
  2:{ unfold digits_value, maxInt64, maxUint64, two63, two64 in *. lia. }
  fold (digits_value (x :: d')).
  unfold maxInt64 in Hmax.
  destruct (digits_value (x :: d') >=? two63) eqn:E; [apply Z.geb_le in E; lia|].
  reflexivity.
Qed.

Lemma not_in_ws_cutset c :
  is_digit c = true \/ In c (map fst size_suffixes) ->
  in_cutset c (list_ascii_of_string ws_cutset) = false.
Proof.
  intro H; simpl.
  repeat match goal with
  | |- context [Ascii.eqb c ?d] =>
      let E := fresh "E" in
      destruct (Ascii.eqb c d) eqn:E; [apply Ascii.eqb_eq in E; subst;
        destruct H as [H|H]; [discriminate H | simpl in H; intuition discriminate] |]
  end; reflexivity.
Qed.

Lemma Trim_untouched l :
  match l with
  | [] => True
  | x :: _ => in_cutset x (list_ascii_of_string ws_cutset) = false
  end ->
  match rev l with
  | [] => True
  | y :: _ => in_cutset y (list_ascii_of_string ws_cutset) = false
  end ->
  Trim (string_of_list_ascii l) ws_cutset = string_of_list_ascii l.
Proof.
  intros Hx Hy; unfold Trim; cbv zeta; rewrite list_ascii_of_string_of_list_ascii.
  set (cs := list_ascii_of_string ws_cutset) in *.
  destruct l as [|x l']; [reflexivity|].
  cbn [trim_left]; rewrite Hx.
  destruct (rev (x :: l')) as [|y r] eqn:Er; [apply (f_equal (@List.length ascii)) in Er;
    rewrite length_rev in Er; discriminate|].
  cbn [trim_left]; rewrite Hy, <- Er, rev_involutive; reflexivity.
Qed.

Lemma suffix_power_of c k : In (c, k) size_suffixes -> suffix_power c = k.
Proof.
  simpl; intros H.
  repeat (destruct H as [H|H]; [inversion H; subst; reflexivity|]); contradiction.
Qed.

Lemma suffix_power_digit c : is_digit c = true -> suffix_power c = 0%nat.
Proof.
  intro H; unfold suffix_power.
  repeat match goal with
  | |- context [Ascii.eqb c ?d] =>
      let E := fresh "E" in
      destruct (Ascii.eqb c d) eqn:E; [apply Ascii.eqb_eq in E; subst; discriminate H |]
  end; reflexivity.
Qed.

Lemma digits_value_nonneg d :
  Forall (fun c => is_digit c = true) d -> 0 <= digits_value d.
Proof. intro Hd; apply (fold_digits_ge d 0 Hd); lia. Qed.

Lemma StrToNumSuffix_plain d :
  d <> [] -> Forall (fun c => is_digit c = true) d -> digits_value d <= maxInt64 ->
  StrToNumSuffix (string_of_list_ascii d) 1024 = digits_value d.
Proof.
  intros Hne Hd Hmax; pose proof (digits_value_nonneg d Hd).
  unfold StrToNumSuffix; rewrite list_ascii_of_string_of_list_ascii.
  assert (Hbody : (let '(num, body) :=
            if (1 <? List.length d)%nat then
              match rev d with
              | c :: rinit =>
                  match suffix_power c with
                  | O => (1, d)
                  | k => (mul_n_times k 1024 1, rev rinit)
                  end
              | [] => (1, d)
              end
            else (1, d) in (num, body)) = (1, d)).
  { destruct (1 <? List.length d)%nat; [|reflexivity].
    destruct (rev d) as [|y r] eqn:Er; [reflexivity|].
    assert (Hy : In y d) by (apply in_rev; rewrite Er; left; reflexivity).
    rewrite (suffix_power_digit y (proj1 (Forall_forall _ d) Hd y Hy)); reflexivity. }
  destruct (1 <? List.length d)%nat; [destruct (rev d) as [|y r] eqn:Er|];
    try (rewrite ParseInt10_digits by assumption; rewrite Z.mul_1_r;
         apply wrap64_small; unfold minInt64, maxInt64 in *; lia).
  assert (Hy : In y d) by (apply in_rev; rewrite Er; left; reflexivity).
  rewrite (suffix_power_digit y (proj1 (Forall_forall _ d) Hd y Hy)).
  rewrite ParseInt10_digits by assumption; rewrite Z.mul_1_r.
  apply wrap64_small; unfold minInt64, maxInt64 in *; lia.
Qed.

Lemma StrToNumSuffix_suffixed d c k :
  d <> [] -> Forall (fun c => is_digit c = true) d -> In (c, k) size_suffixes ->
  digits_value d * 1024 ^ Z.of_nat k <= maxInt64 ->
  StrToNumSuffix (string_of_list_ascii (d ++ [c])) 1024 = digits_value d * 1024 ^ Z.of_nat k.
Proof.
  intros Hne Hd Hin Hmax; pose proof (digits_value_nonneg d Hd).
  assert (Hk : suffix_power c = k) by (apply suffix_power_of; exact Hin).
  assert (Hk3 : mul_n_times k 1024 1 = 1024 ^ Z.of_nat k /\ (1 <= k)%nat).
  { simpl in Hin.
    repeat (destruct Hin as [Hin|Hin]; [inversion Hin; subst; split; [reflexivity|lia]|]).
    contradiction. }
  assert (Hpow : 0 < 1024 ^ Z.of_nat k) by (apply Z.pow_pos_nonneg; lia).
  unfold StrToNumSuffix; rewrite list_ascii_of_string_of_list_ascii.
  assert (Hlen : (1 <? List.length (d ++ [c]))%nat = true).
  { apply Nat.ltb_lt; rewrite length_app; destruct d; [congruence|simpl; lia]. }
  rewrite Hlen, rev_unit, Hk.
  destruct k as [|k']; [lia|].
  rewrite rev_involutive, (proj1 Hk3).
  rewrite ParseInt10_digits by (auto; nia).
  apply wrap64_small; unfold minInt64, maxInt64 in *; nia.
Qed.

(** C9 (counterexample): "9007199254740992K" is 2^53 kibibytes, 2^63 bytes;
    the int product [parsed * num] wraps to -2^63. *)
Lemma C9_suffix_product_wraps :
  StrToNumSuffix "9007199254740992K" 1024 = -9223372036854775808
  /\ StrToNumSuffix "9007199254740992K" 1024 <> 9007199254740992 * 1024.
Proof. split; vm_compute; [reflexivity | discriminate]. Qed.

(** C9 (amended): for a nonempty string of decimal digits [d] whose
    value, times 1024, 1024^2 or 1024^3 for a K/k, M/m or G/g suffix, is
    at most the largest int (2^63 - 1), [StrToNumSuffix(s, 1024)] returns
    that product, a plain digit string returns its value, and
    [SetOption("maxsize", s)] stores it as maxsize. *)
Theorem StrToNumSuffix_sizes d :
  d <> [] -> Forall (fun c => is_digit c = true) d ->
  (digits_value d <= maxInt64 ->
     StrToNumSuffix (string_of_list_ascii d) 1024 = digits_value d
     /\ (forall now ok fa,
          maxsize (fst (SetOption now ok "maxsize" (VStr (string_of_list_ascii d)) fa))
          = digits_value d))
  /\ (forall c k, In (c, k) size_suffixes ->
       digits_value d * 1024 ^ Z.of_nat k <= maxInt64 ->
       StrToNumSuffix (string_of_list_ascii (d ++ [c])) 1024
         = digits_value d * 1024 ^ Z.of_nat k
       /\ (forall now ok fa,
            maxsize (fst (SetOption now ok "maxsize"
                            (VStr (string_of_list_ascii (d ++ [c]))) fa))
            = digits_value d * 1024 ^ Z.of_nat k)).
Proof.
  intros Hne Hd.
  assert (Hsm : forall s now ok fa,
    maxsize (fst (SetOption now ok "maxsize" (VStr s) fa))
    = StrToNumSuffix (Trim s ws_cutset) 1024).
  { intros s now ok fa; unfold SetOption; simpl.
    destruct (cycle fa <=? 0); reflexivity. }
  assert (Hfirst : forall l, match d ++ l with
                   | [] => True
                   | x :: _ => in_cutset x (list_ascii_of_string ws_cutset) = false
                   end).
  { intro l; destruct d as [|x d']; [congruence|].
    inversion Hd; subst; apply not_in_ws_cutset; left; assumption. }
  split.
  - intro Hmax; split; [apply StrToNumSuffix_plain; auto|].
    intros now ok fa; rewrite Hsm, Trim_untouched.
    + apply StrToNumSuffix_plain; auto.
    + pose proof (Hfirst []) as H; rewrite app_nil_r in H; exact H.
    + destruct (rev d) as [|y r] eqn:Er; [exact I|].
      assert (Hy : In y d) by (apply in_rev; rewrite Er; left; reflexivity).
      apply not_in_ws_cutset; left; exact (proj1 (Forall_forall _ d) Hd y Hy).
  - intros c k Hin Hmax; split; [apply StrToNumSuffix_suffixed; auto|].
    intros now ok fa; rewrite Hsm, Trim_untouched.
    + apply StrToNumSuffix_suffixed; auto.
    + apply Hfirst.
    + rewrite rev_unit; apply not_in_ws_cutset; right.
      apply (in_map fst size_suffixes (c, k)); exact Hin.
Qed.

Lemma StrToNumSuffix_sizes_witness :
  StrToNumSuffix "10M" 1024 = 10485760
  /\ maxsize (fst (SetOption 0 true "maxsize" (VStr "10M") (w_fa w_started))) = 10485760.
Proof.
  destruct (proj2 (StrToNumSuffix_sizes ["1"; "0"]%char ltac:(discriminate)
                     ltac:(repeat constructor)) "M"%char 2%nat
              ltac:(simpl; tauto) ltac:(vm_compute; discriminate)) as [H1 H2].
  split; [exact H1 | exact (H2 0 true (w_fa w_started))].
Defined.

(** * Further properties of the appender and its helpers *)

(** Case analysis over every branch of [SetOption]. *)
Ltac split_SetOption :=
  unfold SetOption, post_reset;
  repeat match goal with
  | |- context [if ?b then _ else _] => destruct b eqn:?
  | |- context [match ?x with _ => _ end] => destruct x eqn:?
  end; simpl.

(** ** Every [SetOption] keeps the threshold in step with the mode *)

Lemma SetOption_keeps_threshold_mode_step now ok name v fa :
  threshold_mode_ok fa -> threshold_mode_ok (fst (SetOption now ok name v fa)).
Proof.
  unfold threshold_mode_ok; split_SetOption; intro H; simpl in *; try congruence.
Qed.

(** X1: if the sink's threshold is maxsize in size mode (cycle <= 0) and 0
    in time-cycle mode before a [SetOption] call, it is so afterwards,
    whatever the option name, the value and the outcome. *)
Theorem SetOption_keeps_threshold_mode now ok name v fa :
  threshold_mode_ok fa -> threshold_mode_ok (fst (SetOption now ok name v fa)).
Proof.
  apply SetOption_keeps_threshold_mode_step.
Qed.

Lemma SetOption_keeps_threshold_mode_witness :
  threshold_mode_ok (NewAppender "app.log" 1)
  /\ threshold_mode_ok (fst (SetOption 0 true "cycle" (VInt 0) (NewAppender "app.log" 1))).
Proof.
  assert (H : threshold_mode_ok (NewAppender "app.log" 1)) by reflexivity.
  split; [exact H | apply SetOption_keeps_threshold_mode; exact H].
Defined.

(** ** A refused option changes nothing *)

(** X2: when [SetOption] returns an error for an option it handles itself
    (any name but the layout's "pattern", "format" and "utc"), the appender
    is left exactly as it was. *)
Theorem SetOption_error_unchanged now ok name v fa :
  ~ In name layout_option_names ->
  snd (SetOption now ok name v fa) <> None ->
  fst (SetOption now ok name v fa) = fa.
Proof.
  intro Hl; split_SetOption; intro H; try reflexivity; try congruence.
  exfalso; apply Hl.
  repeat match goal with
  | E : String.eqb _ _ = true |- _ => apply String.eqb_eq in E
  | E : (_ || _)%bool = true |- _ => apply orb_true_iff in E; destruct E as [E|E]
  end; subst; simpl; auto.
Qed.

Lemma SetOption_error_unchanged_witness :
  ~ In "filename"%string layout_option_names
  /\ snd (SetOption 0 true "filename" (VStr "") (NewAppender "app.log" 1)) <> None
  /\ fst (SetOption 0 true "filename" (VStr "") (NewAppender "app.log" 1))
     = NewAppender "app.log" 1.
Proof.
  assert (Hl : ~ In "filename"%string layout_option_names)
    by (simpl; intuition discriminate).
  assert (He : snd (SetOption 0 true "filename" (VStr "") (NewAppender "app.log" 1)) <> None)
    by (simpl; discriminate).
  split; [exact Hl | split; [exact He | exact (SetOption_error_unchanged _ _ _ _ _ Hl He)]].
Defined.

(** ** Reschedule tokens *)

(** X3: a [SetOption] call posts at most one reschedule token, stamped
    with the current time: exactly when the loop is running and the call
    is an accepted "cycle", "clock" or "delay0", or a "daily" that turns
    daily rotation on.  No other call, and no call while the loop is not
    running, touches the token channel. *)
Theorem SetOption_reset_tokens now ok name v fa :
  loopReset (fst (SetOption now ok name v fa))
  = loopReset fa ++ (if loopRunning fa && posts_reset name v then [now] else []).
Proof.
  unfold posts_reset; rewrite andb_comm.
  split_SetOption; rewrite ?app_nil_r; try reflexivity; exfalso;
    repeat match goal with
    | E : (_ || _)%bool = _ |- _ =>
        first [apply orb_true_iff in E | apply orb_false_iff in E]; destruct E as [E|E]
    | E : (_ && _)%bool = true |- _ => apply andb_prop in E; destruct E
    | E : String.eqb _ _ = true |- _ => apply String.eqb_eq in E; subst
    end; simpl in *; congruence.
Qed.

(** ** Invariants of whole schedules *)

Lemma run_preserves (P : World -> Prop) :
  (forall a w w', P w -> world_step a w = Some w' -> P w') ->
  forall acts w w', P w -> run acts w = Some w' -> P w'.
Proof.
  intros Hstep acts; induction acts as [|a acts IH]; intros w w' Hw Hrun; simpl in Hrun.
  - congruence.
  - destruct (world_step a w) as [w1|] eqn:Hs; [|discriminate].
    exact (IH w1 w' (Hstep a w w1 Hw Hs) Hrun).
Qed.

(** [SetOption] leaves the channels and the loop flag alone. *)
Lemma SetOption_frame_loop now ok name v fa :
  let fa' := fst (SetOption now ok name v fa) in
  messages_cap fa' = messages_cap fa /\ loopRunning fa' = loopRunning fa
  /\ loopReset_closed fa' = loopReset_closed fa.
Proof.
  unfold SetOption, post_reset.
  repeat match goal with
  | |- context [if ?b then _ else _] => destruct b
  | |- context [match ?x with _ => _ end] => destruct x
  end; simpl; auto.
Qed.

Lemma maxsize_Write bb w : rf_maxsize (Write bb w) = rf_maxsize w.
Proof. unfold Write; destruct (_ && _); reflexivity. Qed.

Lemma maxsize_fold_Write l w :
  rf_maxsize (fold_left (fun o b => Write b o) l w) = rf_maxsize w.
Proof.
  revert w; induction l as [|b l IH]; intro w; simpl; [reflexivity|].
  rewrite IH; apply maxsize_Write.
Qed.

Lemma calls_Close w : rf_calls (Close w) = rf_calls w ++ [CClose].
Proof. reflexivity. Qed.

Lemma rotate_check_fields fa :
  let fa' := rotate_check fa in
  cycle fa' = cycle fa /\ maxsize fa' = maxsize fa
  /\ rf_maxsize (out fa') = rf_maxsize (out fa)
  /\ messages_cap fa' = messages_cap fa /\ loopRunning fa' = loopRunning fa
  /\ messages fa' = messages fa
  /\ (rf_calls (out fa') = rf_calls (out fa)
      \/ rf_calls (out fa') = rf_calls (out fa) ++ [CRotate]).
Proof.
  unfold rotate_check; destruct (_ && _); simpl; repeat split; auto.
Qed.

Lemma writeLoop_step_fields now zone e nrt fa fa' r :
  writeLoop_step now zone e nrt fa = Some (fa', r) ->
  cycle fa' = cycle fa /\ maxsize fa' = maxsize fa
  /\ rf_maxsize (out fa') = rf_maxsize (out fa)
  /\ messages_cap fa' = messages_cap fa
  /\ (List.length (messages fa') <= List.length (messages fa))%nat
  /\ loopRunning fa' = match r with Some _ => loopRunning fa | None => false end.
Proof.
  destruct e; simpl.
  - destruct (messages fa) as [|bb rest] eqn:Hm.
    + destruct (messages_closed fa); [|discriminate].
      intro H; inversion H; subst; clear H; cbn -[Write].
      rewrite maxsize_Write; repeat split; auto.
    + intro H; inversion H; subst; clear H; cbn -[Write].
      destruct (Z.of_nat _ <=? 0); cbn -[Write]; rewrite maxsize_Write; repeat split; auto.
  - destruct (now <? nrt); [discriminate|].
    intro H; inversion H; subst; clear H.
    destruct (rotate_check_fields fa) as (-> & -> & -> & -> & -> & -> & _).
    repeat split; auto.
  - destruct (loopReset fa) as [|t rest]; [destruct (loopReset_closed fa); [|discriminate]|];
      intro H; inversion H; subst; clear H; simpl; repeat split; auto.
Qed.

Lemma Init_fields w :
  let w' := Init w in
  (w' = w /\ loopRunning (w_fa w) = true)
  \/ (loopRunning (w_fa w) = false /\ loopRunning (w_fa w') = true
      /\ (exists nrt, w_loop w' = LoopRunning nrt)
      /\ cycle (w_fa w') = cycle (w_fa w) /\ maxsize (w_fa w') = maxsize (w_fa w)
      /\ rf_maxsize (out (w_fa w')) = rf_maxsize (out (w_fa w))
      /\ messages_cap (w_fa w') = messages_cap (w_fa w)
      /\ messages (w_fa w') = messages (w_fa w)
      /\ messages_closed (w_fa w') = messages_closed (w_fa w)
      /\ (rf_calls (out (w_fa w')) = rf_calls (out (w_fa w))
          \/ rf_calls (out (w_fa w')) = rf_calls (out (w_fa w)) ++ [CRotate])).
Proof.
  unfold Init; destruct (loopRunning (w_fa w)) eqn:Hr; [left; auto|right].
  unfold writeLoop_start; simpl.
  set (fa1 := set_loopRunning true (w_fa w)).
  destruct (rotate_check_fields fa1) as (Hc & Hm & Hx & Hcap & Hl & Hmsg & Hcalls).
  destruct (rotate_check_messages fa1) as (_ & Hcl & _).
  simpl; rewrite Hc, Hm, Hx, Hcap, Hl, Hmsg, Hcl; simpl.
  repeat split; auto; eexists; reflexivity.
Qed.

(** The mode invariant, the queue bound and the loop flag, step by step. *)
Lemma world_step_threshold a w w' :
  threshold_mode_ok (w_fa w) -> world_step a w = Some w' -> threshold_mode_ok (w_fa w').
Proof.
  unfold threshold_mode_ok; intros H Hs.
  destruct a as [bb| | |e|dt|name v|]; simpl in Hs.
  - destruct (messages_closed _); [discriminate|]; destruct (_ <=? _)%nat; [discriminate|].
    inversion Hs; subst; exact H.
  - destruct (messages_closed _); inversion Hs; subst; exact H.
  - destruct (negb _ || _); inversion Hs; subst; exact H.
  - destruct (w_loop w) as [|nrt|]; try discriminate.
    destruct (writeLoop_step _ _ e nrt _) as [[fa' r]|] eqn:Hl; [|discriminate].
    apply writeLoop_step_fields in Hl as (Hc & Hm & Hx & _).
    destruct r; inversion Hs; subst; simpl; rewrite Hc, Hm, Hx; exact H.
  - destruct (dt <? 0); inversion Hs; subst; exact H.
  - inversion Hs; subst; apply SetOption_keeps_threshold_mode_step; exact H.
  - inversion Hs; subst.
    destruct (Init_fields w) as [[-> _]|(_ & _ & _ & Hc & Hm & Hx & _)]; [exact H|].
    rewrite Hc, Hm, Hx; exact H.
Qed.

Lemma world_step_loop_flag a w w' :
  loop_flag_ok w -> world_step a w = Some w' -> loop_flag_ok w'.
Proof.
  unfold loop_flag_ok; intros H Hs.
  destruct a as [bb| | |e|dt|name v|]; simpl in Hs.
  - destruct (messages_closed _); [discriminate|]; destruct (_ <=? _)%nat; [discriminate|].
    inversion Hs; subst; exact H.
  - destruct (messages_closed _); inversion Hs; subst; exact H.
  - destruct (negb _ || _); inversion Hs; subst; exact H.
  - destruct (w_loop w) as [|nrt|] eqn:Hw; try discriminate.
    destruct (writeLoop_step _ _ e nrt _) as [[fa' r]|] eqn:Hl; [|discriminate].
    apply writeLoop_step_fields in Hl as (_ & _ & _ & _ & _ & Hr).
    destruct r; inversion Hs; subst; simpl; rewrite Hr; auto.
  - destruct (dt <? 0); inversion Hs; subst; exact H.
  - inversion Hs; subst; simpl.
    destruct (SetOption_frame_loop (w_now w) (w_mkdir_ok w) name v (w_fa w)) as (_ & Hr & _).
    simpl in Hr; rewrite Hr; exact H.
  - inversion Hs; subst.
    destruct (Init_fields w) as [[-> _]|(_ & Hr & [nrt Hn] & _)]; [exact H|].
    rewrite Hr, Hn; reflexivity.
Qed.

(** The sink's last call is not a pending [Write] while the queue is empty. *)
Definition idle_flushed (fa : FileAppender) : Prop :=
  messages fa = [] -> ends_with_write (rf_calls (out fa)) = false.

Lemma ends_with_write_app l c :
  ends_with_write (l ++ [c]) = match c with CWrite _ => true | _ => false end.
Proof. unfold ends_with_write; rewrite rev_unit; reflexivity. Qed.

Lemma calls_Flush w : rf_calls (Flush w) = rf_calls w ++ [CFlush].
Proof. reflexivity. Qed.

Lemma writeLoop_step_idle_flushed now zone e nrt fa fa' r :
  idle_flushed fa -> writeLoop_step now zone e nrt fa = Some (fa', r) -> idle_flushed fa'.
Proof.
  unfold idle_flushed; intro H; destruct e; simpl.
  - destruct (messages fa) as [|bb rest] eqn:Hm.
    + destruct (messages_closed fa); [|discriminate].
      intro Hs; inversion Hs; subst; clear Hs; cbn -[Write Flush].
      intros _; rewrite calls_Flush, ends_with_write_app; reflexivity.
    + intro Hs; inversion Hs; subst; clear Hs; cbn -[Write Flush].
      intro Hr; subst rest; simpl.
      rewrite ends_with_write_app; reflexivity.
  - destruct (now <? nrt); [discriminate|].
    intro Hs; inversion Hs; subst; clear Hs.
    destruct (rotate_check_fields fa) as (_ & _ & _ & _ & _ & Hm & [Hc|Hc]); rewrite Hm, Hc;
      [exact H|rewrite ends_with_write_app; reflexivity].
  - destruct (loopReset fa) as [|t rest]; [destruct (loopReset_closed fa); [|discriminate]|];
      intro Hs; inversion Hs; subst; clear Hs; exact H.
Qed.

Lemma world_step_idle_flushed a w w' :
  idle_flushed (w_fa w) -> world_step a w = Some w' -> idle_flushed (w_fa w').
Proof.
  intros H Hs.
  destruct a as [bb| | |e|dt|name v|]; simpl in Hs.
  - destruct (messages_closed _); [discriminate|]; destruct (_ <=? _)%nat; [discriminate|].
    inversion Hs; subst; unfold idle_flushed; simpl; intro Hm.
    destruct (messages (w_fa w)); discriminate.
  - destruct (messages_closed _); inversion Hs; subst; exact H.
  - destruct (negb _ || _); inversion Hs; subst.
    unfold idle_flushed; cbn -[Close]; intros _; rewrite calls_Close, ends_with_write_app; reflexivity.
  - destruct (w_loop w) as [|nrt|]; try discriminate.
    destruct (writeLoop_step _ _ e nrt _) as [[fa' r]|] eqn:Hl; [|discriminate].
    apply writeLoop_step_idle_flushed in Hl; [|exact H].
    destruct r; inversion Hs; subst; exact Hl.
  - destruct (dt <? 0); inversion Hs; subst; exact H.
  - inversion Hs; subst; unfold idle_flushed in *; simpl.
    destruct (SetOption_frame (w_now w) (w_mkdir_ok w) name v (w_fa w)) as (Hm & _ & Hc).
    simpl in Hm, Hc; rewrite Hm, Hc; exact H.
  - inversion Hs; subst; unfold idle_flushed in *.
    destruct (Init_fields w) as [[-> _]|(_ & _ & _ & _ & _ & _ & _ & Hm & _ & [Hc|Hc])];
      [exact H| |]; rewrite Hm, Hc; [exact H|].
    intros _; rewrite ends_with_write_app; reflexivity.
Qed.

(** ** The threshold mode over whole schedules *)

(** X4: from a state whose sink threshold follows the rotation mode (as
    [NewAppender]'s does), every schedule of writes, option changes, loop
    iterations, [Init], [Close] and time keeps it so: the threshold is
    maxsize while cycle <= 0 and 0 (unlimited) otherwise. *)
Theorem run_keeps_threshold_mode acts w w' :
  threshold_mode_ok (w_fa w) -> run acts w = Some w' -> threshold_mode_ok (w_fa w').
Proof.
  apply (run_preserves (fun w => threshold_mode_ok (w_fa w))).
  exact world_step_threshold.
Qed.

Lemma run_keeps_threshold_mode_witness :
  threshold_mode_ok (w_fa (fresh_world "app.log" 1 0 0))
  /\ match run sched_mixed (fresh_world "app.log" 1 0 0) with
     | Some w' => threshold_mode_ok (w_fa w')
     | None => False
     end.
Proof.
  assert (H : threshold_mode_ok (w_fa (fresh_world "app.log" 1 0 0))) by reflexivity.
  split; [exact H|].
  destruct (run sched_mixed (fresh_world "app.log" 1 0 0)) as [w'|] eqn:E.
  - exact (run_keeps_threshold_mode _ _ _ H E).
  - vm_compute in E; discriminate E.
Defined.

(** ** loopRunning tracks the write loop *)

(** X7: starting with [loopRunning] false and no loop, or true with a loop
    alive, every schedule keeps [loopRunning] true exactly while a
    [writeLoop] is alive; so [Init] starts a loop only when none runs, and a
    loop that returns clears the flag. *)
Theorem run_loop_flag acts w w' :
  loop_flag_ok w -> run acts w = Some w' -> loop_flag_ok w'.
Proof.
  apply run_preserves; exact world_step_loop_flag.
Qed.

Lemma run_loop_flag_witness :
  loop_flag_ok (fresh_world "app.log" 1 0 0)
  /\ match run sched_mixed (fresh_world "app.log" 1 0 0) with
     | Some w' => loop_flag_ok w'
     | None => False
     end.
Proof.
  assert (H : loop_flag_ok (fresh_world "app.log" 1 0 0)) by reflexivity.
  split; [exact H|].
  destruct (run sched_mixed (fresh_world "app.log" 1 0 0)) as [w'|] eqn:E.
  - exact (run_loop_flag _ _ _ H E).
  - vm_compute in E; discriminate E.
Defined.

(** ** Writes are flushed when the queue drains *)

(** X8: the loop flushes the sink when it takes the last buffered
    message, so in every state a schedule reaches from a fresh appender,
    whenever the message queue is empty the sink's last call is not a
    [Write]: no written message is left unflushed while the loop idles. *)
Theorem run_idle_flushed acts w w' :
  idle_flushed (w_fa w) -> run acts w = Some w' -> idle_flushed (w_fa w').
Proof.
  apply (run_preserves (fun w => idle_flushed (w_fa w))).
  exact world_step_idle_flushed.
Qed.

Lemma run_idle_flushed_witness :
  idle_flushed (w_fa (fresh_world "app.log" 1 0 0))
  /\ match run sched_mixed (fresh_world "app.log" 1 0 0) with
     | Some w' => idle_flushed (w_fa w')
     | None => False
     end.
Proof.
  assert (H : idle_flushed (w_fa (fresh_world "app.log" 1 0 0)))
    by (intros _; reflexivity).
  split; [exact H|].
  destruct (run sched_mixed (fresh_world "app.log" 1 0 0)) as [w'|] eqn:E.
  - exact (run_idle_flushed _ _ _ H E).
  - vm_compute in E; discriminate E.
Defined.

(** ** ToInt: sizes with suffixes, with the error reported *)

Lemma strToNumSuffix_digits d c k :
  d <> [] -> Forall (fun c => is_digit c = true) d ->
  (digits_value d <= maxInt64 ->
   strToNumSuffix (string_of_list_ascii d) 1024 = (digits_value d, None))
  /\ (In (c, k) size_suffixes -> digits_value d * 1024 ^ Z.of_nat k <= maxInt64 ->
      strToNumSuffix (string_of_list_ascii (d ++ [c])) 1024
      = (digits_value d * 1024 ^ Z.of_nat k, None)).
Proof.
  intros Hne Hd; pose proof (digits_value_nonneg d Hd).
  split.
  - intro Hmax; unfold strToNumSuffix; rewrite list_ascii_of_string_of_list_ascii.
    destruct (1 <? List.length d)%nat; [destruct (rev d) as [|y r] eqn:Er|].
    + rewrite ParseInt10_digits by assumption; rewrite Z.mul_1_r, wrap64_small; auto.
      unfold minInt64, maxInt64 in *; lia.
    + assert (Hy : In y d) by (apply in_rev; rewrite Er; left; reflexivity).
      rewrite (suffix_power_digit y (proj1 (Forall_forall _ d) Hd y Hy)).
      rewrite ParseInt10_digits by assumption; rewrite Z.mul_1_r, wrap64_small; auto.
      unfold minInt64, maxInt64 in *; lia.
    + rewrite ParseInt10_digits by assumption; rewrite Z.mul_1_r, wrap64_small; auto.
      unfold minInt64, maxInt64 in *; lia.
  - intros Hin Hmax.
    assert (Hk : suffix_power c = k) by (apply suffix_power_of; exact Hin).
    assert (Hk3 : mul_n_times k 1024 1 = 1024 ^ Z.of_nat k /\ (1 <= k)%nat).
    { simpl in Hin.
      repeat (destruct Hin as [Hin|Hin]; [inversion Hin; subst; split; [reflexivity|lia]|]).
      contradiction. }
    assert (Hpow : 0 < 1024 ^ Z.of_nat k) by (apply Z.pow_pos_nonneg; lia).
    unfold strToNumSuffix; rewrite list_ascii_of_string_of_list_ascii.
    assert (Hlen : (1 <? List.length (d ++ [c]))%nat = true).
    { apply Nat.ltb_lt; rewrite length_app; destruct d; [congruence|simpl; lia]. }
    rewrite Hlen, rev_unit, Hk.
    destruct k as [|k']; [lia|].
    rewrite rev_involutive, (proj1 Hk3).
    rewrite ParseInt10_digits by (auto; nia).
    rewrite wrap64_small; [reflexivity|]; unfold minInt64, maxInt64 in *; nia.
Qed.

(** X9: [ToInt] of cast.go reads a nonempty string of decimal digits,
    optionally followed by one K/k, M/m or G/g suffix, as its value times
    1, 1024, 1024^2 or 1024^3, with no error, whenever that number is at
    most 2^63 - 1; and for every string its value is the one
    [StrToNumSuffix(s, 1024)] returns. *)
Theorem ToInt_sizes d :
  d <> [] -> Forall (fun c => is_digit c = true) d ->
  (digits_value d <= maxInt64 ->
   ToInt (VStr (string_of_list_ascii d)) = (digits_value d, None))
  /\ (forall c k, In (c, k) size_suffixes -> digits_value d * 1024 ^ Z.of_nat k <= maxInt64 ->
      ToInt (VStr (string_of_list_ascii (d ++ [c]))) = (digits_value d * 1024 ^ Z.of_nat k, None))
  /\ (forall s, fst (ToInt (VStr s)) = StrToNumSuffix s 1024).
Proof.
  intros Hne Hd; split; [|split].
  - intro Hmax; unfold ToInt.
    rewrite (proj1 (strToNumSuffix_digits d "0"%char 0 Hne Hd) Hmax); reflexivity.
  - intros c k Hin Hmax; unfold ToInt.
    rewrite (proj2 (strToNumSuffix_digits d c k Hne Hd) Hin Hmax); reflexivity.
  - intro s; unfold ToInt, strToNumSuffix, StrToNumSuffix.
    destruct (_ : Z * list ascii) as [num body].
    destruct (ParseInt10 body); reflexivity.
Qed.

Lemma ToInt_sizes_witness :
  ToInt (VStr "10M") = (10485760, None) /\ ToInt (VStr "512") = (512, None).
Proof.
  destruct (ToInt_sizes ["1"; "0"]%char ltac:(discriminate) ltac:(repeat constructor))
    as (_ & H2 & _).
  destruct (ToInt_sizes ["5"; "1"; "2"]%char ltac:(discriminate) ltac:(repeat constructor))
    as (H1 & _ & _).
  split.
  - exact (H2 "M"%char 2%nat ltac:(simpl; tauto) ltac:(vm_compute; discriminate)).
  - exact (H1 ltac:(vm_compute; discriminate)).
Defined.

(** X10: a string without any decimal digit gives 0 and a syntax error
    from [strToNumSuffix] (whatever the multiplier) and from [ToInt];
    the unchecked [StrToNumSuffix] gives the same 0 silently. *)
Theorem ToInt_no_digit s mult :
  Forall (fun c => is_digit c = false) (list_ascii_of_string s) ->
  strToNumSuffix s mult = (0, Some NumSyntax)
  /\ ToInt (VStr s) = (0, Some (CastNumError NumSyntax))
  /\ StrToNumSuffix s mult = 0.
Proof.
  intro Hs.
  assert (Hgen : forall m, strToNumSuffix s m = (0, Some NumSyntax)).
  { intro m; unfold strToNumSuffix.
    set (l := list_ascii_of_string s) in *.
    assert (Hbody : forall num body,
               Forall (fun c => is_digit c = false) body ->
               (let '(parsed, err) := ParseInt10 body in (wrap64 (parsed * num), err))
               = (0, Some NumSyntax)).
    { intros num body Hb; rewrite ParseInt10_no_digit by exact Hb; reflexivity. }
    destruct (1 <? List.length l)%nat; [|apply Hbody; exact Hs].
    destruct (rev l) as [|y r] eqn:Er; [apply Hbody; exact Hs|].
    destruct (suffix_power y); [apply Hbody; exact Hs|].
    apply Hbody.
    assert (Hl : l = rev r ++ [y]) by (rewrite <- rev_involutive at 1; rewrite Er; reflexivity).
    rewrite Hl in Hs; apply Forall_app in Hs; exact (proj1 Hs). }
  split; [apply Hgen|split].
  - unfold ToInt; rewrite Hgen; reflexivity.
  - pose proof (Hgen mult) as H; unfold strToNumSuffix in H; unfold StrToNumSuffix.
    destruct (_ : Z * list ascii) as [num body].
    destruct (ParseInt10 body); inversion H; reflexivity.
Qed.

Lemma ToInt_no_digit_witness :
  strToNumSuffix "abc" 1024 = (0, Some NumSyntax)
  /\ ToInt (VStr "abc") = (0, Some (CastNumError NumSyntax))
  /\ StrToNumSuffix "abc" 1024 = 0.
Proof.
  apply ToInt_no_digit; repeat constructor.
Defined.

(** ** ToSeconds and the "cycle" option *)

Lemma SetOption_cycle_str now ok s fa :
  cycle (fst (SetOption now ok "cycle" (VStr s) fa))
  = seconds_of_duration (parse_duration_or_zero s)
  /\ snd (SetOption now ok "cycle" (VStr s) fa) = None.
Proof.
  unfold SetOption, post_reset; simpl.
  repeat match goal with |- context [if ?b then _ else _] => destruct b end;
    split; reflexivity.
Qed.

(** X11: on a string, [ToSeconds] of cast.go returns the number of
    seconds that [SetOption("cycle", s)] stores, and reports an error
    exactly when [time.ParseDuration] rejects the string, where
    [SetOption] returns nil (and stores 0). *)
Theorem ToSeconds_cycle now ok s fa :
  fst (ToSeconds (VStr s)) = cycle (fst (SetOption now ok "cycle" (VStr s) fa))
  /\ (snd (ToSeconds (VStr s)) = None <-> ParseDuration s <> None)
  /\ snd (SetOption now ok "cycle" (VStr s) fa) = None.
Proof.
  destruct (SetOption_cycle_str now ok s fa) as [Hc Herr].
  rewrite Hc, Herr; unfold ToSeconds, parse_duration_or_zero.
  destruct (ParseDuration s); simpl; repeat split; auto; congruence.
Qed.

(** ** Durations with a unit *)

Lemma leadingInt_digits d rest x :
  Forall (fun c => is_digit c = true) d -> 0 <= x ->
  fold_left (fun a c => a * 10 + digit_val c) d x <= two63 ->
  match rest with [] => True | c :: _ => is_digit c = false end ->
  leadingInt x (d ++ rest) = Some (fold_left (fun a c => a * 10 + digit_val c) d x, rest).
Proof.
  revert x; induction d as [|c d IH]; intros x Hd Hx Hmax Hr; simpl in *.
  - destruct rest as [|c r]; [reflexivity|]; simpl; rewrite Hr; reflexivity.
  - inversion Hd as [|? ? Hc Hd']; subst; rewrite Hc.
    pose proof (digit_val_bounds c Hc).
    pose proof (fold_digits_ge d (x * 10 + digit_val c) Hd' ltac:(lia)).
    destruct (x >? two63 / 10) eqn:E1.
    { apply Z.gtb_lt in E1.
      assert (two63 / 10 = 922337203685477580) by reflexivity.
      unfold two63 in *; lia. }
    destruct (x * 10 + digit_val c >? two63) eqn:E2; [apply Z.gtb_lt in E2; lia|].
    apply IH; auto; lia.
Qed.

Lemma digits_value_app_nonempty d (u : list ascii) :
  d <> [] -> u <> [] -> (1 < List.length (d ++ u))%nat.
Proof.
  intros Hd Hu; rewrite length_app; destruct d; [congruence|]; destruct u; [congruence|].
  simpl; lia.
Qed.

Lemma ParseDuration_unit d c unit :
  d <> [] -> Forall (fun c => is_digit c = true) d ->
  is_digit_or_dot c = false -> Ascii.eqb c "."%char = false ->
  unit_of [c] = Some unit -> 0 < unit ->
  digits_value d * unit <= maxInt64 ->
  ParseDuration (string_of_list_ascii (d ++ [c])) = Some (digits_value d * unit).
Proof.
  intros Hne Hd Hc Hdot Hu Hpos Hmax.
  pose proof (digits_value_nonneg d Hd) as Hv.
  assert (Hcd : is_digit c = false)
    by (unfold is_digit_or_dot in Hc; apply orb_false_iff in Hc; tauto).
  unfold ParseDuration; rewrite list_ascii_of_string_of_list_ascii.
  destruct d as [|x d']; [congruence|].
  inversion Hd as [|? ? Hx _]; subst.
  destruct (digit_not_sign x Hx) as [Hp Hm].
  cbn [app]; rewrite Hm, Hp.
  set (l := x :: d' ++ [c]).
  assert (H0 : String.eqb (string_of_list_ascii l) "0" = false).
  { destruct (String.eqb _ _) eqn:E; [|reflexivity].
    apply String.eqb_eq in E.
    apply (f_equal list_ascii_of_string) in E.
    rewrite list_ascii_of_string_of_list_ascii in E.
    apply (f_equal (@List.length ascii)) in E; unfold l in E; simpl in E.
    rewrite length_app in E; simpl in E; lia. }
  rewrite H0; unfold l; clear H0 l.
  destruct (List.length (x :: d' ++ [c])) as [|fuel] eqn:Hlen; [discriminate|].
  cbn [duration_loop].
  assert (Hxd : is_digit_or_dot x = true) by (unfold is_digit_or_dot; rewrite Hx; reflexivity).
  rewrite Hxd; cbn [negb].
  change (x :: d' ++ [c]) with ((x :: d') ++ [c]).
  rewrite leadingInt_digits with (rest := [c]); auto; try lia.
  2:{ fold (digits_value (x :: d')); unfold maxInt64 in Hmax; nia. }
  fold (digits_value (x :: d')).
  set (v := digits_value (x :: d')) in *.
  rewrite Hdot.
  assert (Hpre : Nat.eqb (List.length ((x :: d') ++ [c])) (List.length [c]) = false).
  { apply Nat.eqb_neq; rewrite length_app; simpl; lia. }
  rewrite Hpre; cbn [negb orb].
  simpl split_unit; rewrite Hc.
  rewrite Hu.
  assert (E1 : (v >? two63 / unit) = false).
  { destruct (v >? two63 / unit) eqn:E; [exfalso|reflexivity].
    apply Z.gtb_lt in E.
    assert (v <= two63 / unit)
      by (apply Z.div_le_lower_bound; unfold maxInt64 in Hmax; lia).
    lia. }
  rewrite E1.
  assert (E2 : (0 >? 0) = false) by reflexivity; rewrite E2.
  assert (E3 : (v * unit >? two63) = false).
  { destruct (v * unit >? two63) eqn:E; [exfalso|reflexivity].
    apply Z.gtb_lt in E; unfold maxInt64 in Hmax; lia. }
  rewrite E3, Z.add_0_l, E3.
  destruct fuel; cbn [duration_loop];
    destruct (v * unit >? maxInt64) eqn:E4; try reflexivity;
    apply Z.gtb_lt in E4; lia.
Qed.

(** X12: a nonempty string of decimal digits followed by the unit "s",
    "m" or "h" parses, when the nanosecond count fits in an int64, as the
    value times the unit; [ToSeconds] then returns value times 1, 60 or
    3600 with no error, and [SetOption("cycle", s)] stores that many
    seconds. *)
Theorem cycle_with_unit d u ns secs now ok fa :
  d <> [] -> Forall (fun c => is_digit c = true) d -> In (u, ns, secs) second_units ->
  digits_value d * ns <= maxInt64 ->
  let s := string_of_list_ascii (d ++ list_ascii_of_string u) in
  ParseDuration s = Some (digits_value d * ns)
  /\ ToSeconds (VStr s) = (digits_value d * secs, None)
  /\ cycle (fst (SetOption now ok "cycle" (VStr s) fa)) = digits_value d * secs.
Proof.
  intros Hne Hd Hin Hmax s.
  assert (Hp : ParseDuration s = Some (digits_value d * ns)
               /\ ns = secs * ns_per_s).
  { simpl in Hin.
    repeat (destruct Hin as [Hin|Hin];
      [inversion Hin; subst; split;
       [apply ParseDuration_unit; auto; reflexivity | reflexivity]|]).
    contradiction. }
  destruct Hp as [Hp Hns].
  assert (Hsec : seconds_of_duration (digits_value d * ns) = digits_value d * secs).
  { unfold seconds_of_duration; rewrite Hns, Z.mul_assoc, Z.quot_mul; [reflexivity|].
    unfold ns_per_s; lia. }
  split; [exact Hp|split].
  - unfold ToSeconds; rewrite Hp, Hsec; reflexivity.
  - rewrite (proj1 (SetOption_cycle_str now ok s fa)).
    unfold parse_duration_or_zero; rewrite Hp; exact Hsec.
Qed.

Lemma cycle_with_unit_witness :
  ParseDuration "90m" = Some (5400 * ns_per_s)
  /\ ToSeconds (VStr "90m") = (5400, None)
  /\ cycle (fst (SetOption 0 true "cycle" (VStr "90m") (NewAppender "app.log" 1))) = 5400.
Proof.
  destruct (cycle_with_unit ["9"; "0"]%char "m" (60 * ns_per_s) 60 0 true
              (NewAppender "app.log" 1) ltac:(discriminate) ltac:(repeat constructor)
              ltac:(simpl; tauto) ltac:(vm_compute; discriminate)) as (H1 & H2 & H3).
  split; [exact H1|split; [exact H2|exact H3]].
Defined.

(** ** maxbackup: a suffix multiplies by 1 *)

Lemma mul_n_times_one k : mul_n_times k 1 1 = 1.
Proof. induction k as [|k IH]; [reflexivity|exact IH]. Qed.

(** X13: [SetOption("maxbackup", s)] accepts a K/k, M/m or G/g suffix
    after a nonempty string of decimal digits (at most 2^63 - 1) and
    ignores it: the multiplier is 1, so the sink's backup count is the
    digits' value. *)
Theorem SetOption_maxbackup_suffix now ok d c k fa :
  d <> [] -> Forall (fun c => is_digit c = true) d -> In (c, k) size_suffixes ->
  digits_value d <= maxInt64 ->
  rf_maxbackup (out (fst (SetOption now ok "maxbackup"
                            (VStr (string_of_list_ascii (d ++ [c]))) fa)))
  = digits_value d
  /\ snd (SetOption now ok "maxbackup" (VStr (string_of_list_ascii (d ++ [c]))) fa) = None.
Proof.
  intros Hne Hd Hin Hmax; pose proof (digits_value_nonneg d Hd).
  assert (Htrim : Trim (string_of_list_ascii (d ++ [c])) ws_cutset
                  = string_of_list_ascii (d ++ [c])).
  { apply Trim_untouched.
    - destruct d as [|x d']; [congruence|].
      inversion Hd; subst; apply not_in_ws_cutset; left; assumption.
    - rewrite rev_unit; apply not_in_ws_cutset; right.
      apply (in_map fst size_suffixes (c, k)); exact Hin. }
  assert (Hk : suffix_power c = k) by (apply suffix_power_of; exact Hin).
  assert (Hk1 : (1 <= k)%nat).
  { simpl in Hin.
    repeat (destruct Hin as [Hin|Hin]; [inversion Hin; subst; lia|]); contradiction. }
  unfold SetOption; simpl; rewrite Htrim; split; [|reflexivity].
  unfold StrToNumSuffix; rewrite list_ascii_of_string_of_list_ascii.
  assert (Hlen : (1 <? List.length (d ++ [c]))%nat = true).
  { apply Nat.ltb_lt; rewrite length_app; destruct d; [congruence|simpl; lia]. }
  rewrite Hlen, rev_unit, Hk.
  destruct k as [|k']; [lia|].
  rewrite rev_involutive, mul_n_times_one.
  rewrite ParseInt10_digits by auto.
  rewrite Z.mul_1_r, wrap64_small; [reflexivity|]; unfold minInt64, maxInt64 in *; lia.
Qed.

Lemma SetOption_maxbackup_suffix_witness :
  rf_maxbackup (out (fst (SetOption 0 true "maxbackup" (VStr "7K") (NewAppender "app.log" 1))))
  = 7.
Proof.
  exact (proj1 (SetOption_maxbackup_suffix 0 true ["7"]%char "K"%char 1 (NewAppender "app.log" 1)
                  ltac:(discriminate) ltac:(repeat constructor) ltac:(simpl; tauto)
                  ltac:(vm_compute; discriminate))).
Defined.

(** ** AppenderConfigure and loadAppender *)

Lemma SetOption_str_bad_value now ok name s fa :
  ~ In name layout_option_names ->
  match snd (SetOption now ok name (VStr s) fa) with Some ErrBadValue => true | _ => false end
  = String.eqb name "filename" && String.eqb s "".
Proof.
  intros _.
  destruct (String.eqb name "filename") eqn:Ef.
  - apply String.eqb_eq in Ef; subst; unfold SetOption; simpl.
    destruct s; simpl; [reflexivity|]; destruct ok; reflexivity.
  - unfold SetOption; rewrite Ef; simpl.
    repeat match goal with
    | |- context [if ?b then _ else _] => destruct b eqn:?
    end; simpl; reflexivity.
Qed.

Lemma AppenderConfigure_loop_ok now ok props fa b :
  Forall (fun p => ~ In (fst p) layout_option_names) props ->
  snd (AppenderConfigure_loop now ok props fa b)
  = b && forallb (fun p => negb (String.eqb (fst p) "filename"
                                  && String.eqb (Trim (snd p) ws_cutset) "")) props.
Proof.
  revert fa b; induction props as [|[name val] props IH]; intros fa b Hp; simpl.
  - now rewrite andb_true_r.
  - inversion Hp as [|? ? Hn Hp']; subst; simpl in Hn.
    pose proof (SetOption_str_bad_value now ok name (Trim val ws_cutset) fa Hn) as Hb.
    destruct (SetOption now ok name (VStr (Trim val ws_cutset)) fa) as [fa1 err].
    rewrite IH by exact Hp'; simpl in Hb.
    destruct err as [[| |]|]; rewrite <- Hb; simpl;
      destruct b; reflexivity.
Qed.

Lemma AppenderConfigure_loop_state now ok props fa b :
  fst (AppenderConfigure_loop now ok props fa b)
  = fold_left (fun fa (prop : NameValue) =>
                 fst (SetOption now ok (fst prop) (VStr (Trim (snd prop) ws_cutset)) fa))
              props fa.
Proof.
  revert fa b; induction props as [|[name val] props IH]; intros fa b; simpl; [reflexivity|].
  destruct (SetOption now ok name (VStr (Trim val ws_cutset)) fa) as [fa1 err] eqn:E.
  rewrite IH; reflexivity.
Qed.

(** X14: configuring a file appender with [AppenderConfigure] (no
    property of the layout's) returns false exactly when some property is
    "filename" with a value that is empty once spaces, CRs and LFs are
    trimmed: unknown names and file system errors do not count, and every
    other option takes any string. *)
Theorem AppenderConfigure_ok now ok fa props :
  Forall (fun p => ~ In (fst p) layout_option_names) props ->
  snd (AppenderConfigure now ok fa props)
  = forallb (fun p => negb (String.eqb (fst p) "filename"
                             && String.eqb (Trim (snd p) ws_cutset) "")) props.
Proof.
  intro Hp; unfold AppenderConfigure; rewrite AppenderConfigure_loop_ok by exact Hp.
  reflexivity.
Qed.

Lemma AppenderConfigure_ok_witness :
  snd (AppenderConfigure 0 false (NewAppender "app.log" 1)
         [("bogus", "1"); ("filename", "other.log"); ("maxsize", "x")]%string) = true
  /\ snd (AppenderConfigure 0 true (NewAppender "app.log" 1)
            [("maxsize", "1M"); ("filename", "   ")]%string) = false.
Proof.
  split.
  - rewrite AppenderConfigure_ok by (repeat constructor; simpl; intuition discriminate).
    reflexivity.
  - rewrite AppenderConfigure_ok by (repeat constructor; simpl; intuition discriminate).
    vm_compute; reflexivity.
Defined.

(** X15: [loadAppender] of config.go yields nothing when the level is at
    or above SILENT, or when the type has no constructor or the
    constructor returns nil; otherwise it yields the appender in the state
    [AppenderConfigure] leaves it in with the same properties (each set in
    order with its trimmed value, errors ignored). *)
Theorem loadAppender_configure now ok level silent newFunc props :
  loadAppender now ok level silent newFunc props
  = if silent <=? level then None
    else match newFunc with
         | Some (Some fa) => Some (fst (AppenderConfigure now ok fa props))
         | _ => None
         end.
Proof.
  unfold loadAppender, AppenderConfigure.
  destruct (silent <=? level); [reflexivity|].
  destruct newFunc as [[fa|]|]; try reflexivity.
  rewrite AppenderConfigure_loop_state; reflexivity.
Qed.

(** ** A timer deadline that is already due *)

(** X16: with clock >= 0, when [now + cycle] falls on the local day whose
    midnight plus [clock] seconds is not after [now] (e.g. cycle 3600,
    clock 0, at noon), the timer case of [writeLoop] re-arms the timer for
    a deadline that is not in the future: the case is ready again at once,
    with the same cycle and clock, so it keeps firing (and running the
    rotation check) without time passing. *)
Theorem timer_refires now zone nrt fa :
  0 < cycle fa <= 9223372036 -> 0 <= clock fa <= 9223372036 ->
  date_midnight zone (now + cycle fa * ns_per_s) + clock fa * ns_per_s <= now ->
  nrt <= now ->
  writeLoop_step now zone EvTimer nrt fa
  = Some (rotate_check fa, Some (nextTime now zone (cycle fa) (clock fa)))
  /\ nextTime now zone (cycle fa) (clock fa) <= now
  /\ cycle (rotate_check fa) = cycle fa /\ clock (rotate_check fa) = clock fa.
Proof.
  intros Hc Hk Hmid Hn.
  assert (Hnt : nextTime now zone (cycle fa) (clock fa)
                = date_midnight zone (now + cycle fa * ns_per_s) + clock fa * ns_per_s).
  { unfold nextTime.
    destruct (cycle fa <=? 0) eqn:E1; [apply Z.leb_le in E1; lia|].
    destruct (clock fa <? 0) eqn:E2; [apply Z.ltb_lt in E2; lia|].
    rewrite !dur_seconds_small by lia; reflexivity. }
  split; [|split; [lia|]].
  - simpl; destruct (now <? nrt) eqn:E; [apply Z.ltb_lt in E; lia|reflexivity].
  - unfold rotate_check; destruct (_ && _); split; reflexivity.
Qed.

Lemma timer_refires_witness :
  writeLoop_step (43200 * ns_per_s) 0 EvTimer (43200 * ns_per_s)
    (set_clock 0 (set_cycle 3600 (NewAppender "app.log" 1)))
  = Some (rotate_check (set_clock 0 (set_cycle 3600 (NewAppender "app.log" 1))), Some 0)
  /\ (0 <= 43200 * ns_per_s).
Proof.
  destruct (timer_refires (43200 * ns_per_s) 0 (43200 * ns_per_s)
              (set_clock 0 (set_cycle 3600 (NewAppender "app.log" 1)))
              ltac:(simpl; lia) ltac:(simpl; lia)
              ltac:(vm_compute; discriminate) ltac:(lia)) as (H1 & H2 & _).
  split; [exact H1|exact H2].
Defined.

(** ** Which filters LoadConfiguration loads *)

Lemma ToBool_true s :
  ToBool (VStr s) = (true, None) -> In s true_spellings.
Proof.
  unfold ToBool, ParseBool.
  repeat match goal with
  | |- context [if ?b then _ else _] => destruct b eqn:?
  end; intro H; try discriminate.
  repeat match goal with
  | E : (_ || _)%bool = true |- _ => apply orb_true_iff in E; destruct E as [E|E]
  | E : String.eqb _ _ = true |- _ => apply String.eqb_eq in E; subst
  end; simpl; tauto.
Qed.

Lemma load_filter_enabled_step GetLevel ToLower SILENT GetAppenderNewFunc now mkdir_ok fc :
  load_filter GetLevel ToLower SILENT GetAppenderNewFunc now mkdir_ok fc <> [] ->
  In (fc_Enabled fc) true_spellings /\ (fc_Tag fc <> ""%string \/ fc_Type fc <> ""%string).
Proof.
  unfold load_filter; intro H.
  destruct (String.eqb (fc_Tag fc) "" && String.eqb (fc_Type fc) "") eqn:Et;
    [contradiction|].
  split.
  - destruct (_ : string * string) as [tag typ].
    destruct (ToBool (VStr (fc_Enabled fc))) as [[|] [e|]] eqn:Eb; try contradiction.
    apply ToBool_true; exact Eb.
  - apply andb_false_iff in Et as [Et|Et]; [left|right]; intro E; rewrite E in Et; discriminate.
Qed.


(** X17: [LoadConfiguration] acts on a filter (loads the loglog or stdout
    settings, or adds an appender) only if the filter has a tag or a type
    and its "enabled" attribute is one of "1", "t", "T", "TRUE", "true" and
    "True"; a filter whose attribute is missing (empty), "yes" or any
    other text is skipped. *)
Theorem load_filter_enabled GetLevel ToLower SILENT GetAppenderNewFunc now mkdir_ok fc :
  load_filter GetLevel ToLower SILENT GetAppenderNewFunc now mkdir_ok fc <> [] ->
  In (fc_Enabled fc) true_spellings /\ (fc_Tag fc <> ""%string \/ fc_Type fc <> ""%string).
Proof.
  apply load_filter_enabled_step.
Qed.

Lemma load_filter_enabled_witness :
  load_filter (fun _ => 0) (fun s => s) 10 (fun _ => None) 0 true
    (mkFilterConfig "true" "stdout" "" "INFO" "" []) <> []
  /\ In "true"%string true_spellings.
Proof.
  assert (H : load_filter (fun _ => 0) (fun s => s) 10 (fun _ => None) 0 true
                (mkFilterConfig "true" "stdout" "" "INFO" "" []) <> [])
    by (vm_compute; discriminate).
  split; [exact H|].
  exact (proj1 (load_filter_enabled _ _ _ _ _ _ _ H)).
Defined.

(** X18: a nil configuration or one without filters leaves the logger
    alone, but a configuration whose filters are all skipped (disabled, or
    without tag and type) still installs an empty filter set, replacing the
    logger's filters. *)
Theorem LoadConfiguration_all_skipped GetLevel ToLower SILENT GetAppenderNewFunc now mkdir_ok fs :
  LoadConfiguration GetLevel ToLower SILENT GetAppenderNewFunc now mkdir_ok None = None
  /\ LoadConfiguration GetLevel ToLower SILENT GetAppenderNewFunc now mkdir_ok (Some []) = None
  /\ (fs <> [] ->
      Forall (fun fc => ~ In (fc_Enabled fc) true_spellings) fs ->
      LoadConfiguration GetLevel ToLower SILENT GetAppenderNewFunc now mkdir_ok (Some fs)
      = Some []).
Proof.
  split; [reflexivity|split; [reflexivity|]].
  intros Hne Hd.
  assert (Hnil : flat_map (load_filter GetLevel ToLower SILENT GetAppenderNewFunc now mkdir_ok) fs = []).
  { clear Hne; induction Hd as [|fc fs Hfc Hd IH]; [reflexivity|].
    simpl; rewrite IH, app_nil_r.
    destruct (load_filter _ _ _ _ _ _ fc) eqn:E; [reflexivity|].
    exfalso; apply Hfc.
    refine (proj1 (load_filter_enabled_step GetLevel ToLower SILENT GetAppenderNewFunc
                     now mkdir_ok fc _)).
    rewrite E; discriminate. }
  destruct fs; [congruence|]; unfold LoadConfiguration; rewrite Hnil; reflexivity.
Qed.

Lemma LoadConfiguration_all_skipped_witness :
  LoadConfiguration (fun _ => 0) (fun s => s) 10 (fun _ => None) 0 true
    (Some [mkFilterConfig "" "file" "" "DEBUG" "" [("filename", "app.log")%string];
           mkFilterConfig "yes" "stdout" "" "INFO" "" []]) = Some [].
Proof.
  refine (proj2 (proj2 (LoadConfiguration_all_skipped (fun _ => 0) (fun s => s) 10
                          (fun _ => None) 0 true _)) _ _).
  - discriminate.
  - repeat constructor; simpl; intuition discriminate.
Defined.
